(** * relstorage._compat: OID/TID collection selection and set algebra

    A shallow embedding of the collection part of [relstorage/_compat.py]:
    the import-time capability probes, the binding of the map, set and
    list types, and the helper functions [OidTMap_difference],
    [OidTMap_multiunion], [OidTMap_intersection], [OidSet_difference],
    [OidSet_discard] and [OidObjectMap_max_key] in both branches of the
    module-level [if]; then the version flags, [iteroiditems], and the
    [wraps] and [update_wrapper] of the Python 2 branch.

    Python objects live in a store indexed by references, so that
    "returns a new collection" and "mutates its argument in place" are
    statements about the store.  Functions of the module are computations
    in a state-and-exception monad over that store. *)

From stdpp Require Import gmap strings list.

Local Open Scope Z_scope.

(** ** Exceptions and the store monad *)

Inductive exn : Type :=
  | KeyError
  | ValueError
  | TypeError
  | AttributeError
  | SystemError.

#[global] Instance exn_eq_dec : EqDecision exn.
Proof. solve_decision. Defined.

Inductive result (A : Type) : Type :=
  | Ok (a : A)
  | Raise (e : exn).

Arguments Ok {A} a.
Arguments Raise {A} e.

(** An object reference. *)
Definition loc : Type := positive.

(** The objects the module handles.  Keys are Python integers; the values
    of a map are integers too (a TID, or the reference of a cached
    object).

    - [PyDict]: a built-in [dict], its items in the order in which the
      interpreter iterates the dict;
    - [PySet]: a built-in [set];
    - [LLBTree]: a [BTree] or [Bucket] of the 64-bit integer family of
      the BTrees package, its items in ascending key order;
    - [LLTreeSet]: a [TreeSet] or [Set] of the same family, its keys in
      ascending order;
    - [PyArray]: an [array.array] with its type code and item size. *)
Inductive obj : Type :=
  | PyDict (items : list (Z * Z))
  | PySet (elts : gset Z)
  | LLBTree (items : list (Z * Z))
  | LLTreeSet (keys : list Z)
  | PyArray (typecode : string) (itemsize : Z) (data : list Z).

Abbreviation heap := (gmap loc obj).

Definition M (A : Type) : Type := heap → result A * heap.

Definition ret {A} (a : A) : M A := λ h, (Ok a, h).

Definition bind {A B} (m : M A) (f : A → M B) : M B :=
  λ h, match m h with
       | (Ok a, h') => f a h'
       | (Raise e, h') => (Raise e, h')
       end.

Definition raise {A} (e : exn) : M A := λ h, (Raise e, h).

(** [try: body except e: handler].  Store updates made by [body] before
    it raised are kept, as in Python. *)
Definition try_except {A} (body : M A) (e : exn) (handler : M A) : M A :=
  λ h, match body h with
       | (Ok a, h') => (Ok a, h')
       | (Raise e', h') => if decide (e' = e) then handler h' else (Raise e', h')
       end.

Notation "'let!' x ':=' m 'in' k" := (bind m (λ x, k))
  (at level 10, x name, m at level 100, k at level 200).
Notation "m ';;' k" := (bind m (λ _, k))
  (at level 100, k at level 200, right associativity).

(** Allocation of a new object at a reference not yet in use. *)
Definition alloc (o : obj) : M loc :=
  λ h, let l := fresh (dom h) in (Ok l, <[l := o]> h).

(** Dereference; a reference always denotes an object in Python, so the
    error case is never taken from a reference obtained from the store. *)
Definition deref (l : loc) : M obj :=
  λ h, match h !! l with
       | Some o => (Ok o, h)
       | None => (Raise SystemError, h)
       end.

Definition store (l : loc) (o : obj) : M unit :=
  λ h, (Ok tt, <[l := o]> h).

(** ** The running interpreter *)

(** What the module reads from the running interpreter, and what the
    interpreter does with a dict.
    - [c_btrees]: the BTrees package has its C implementation, that is
      [BTrees.LLBTree.LLBTree is not BTrees.LLBTree.LLBTreePy];
    - [python_implementation]: [platform.python_implementation()];
    - [has_long_long]: the [array] module knows the type codes of
      [long long];
    - [sizeof_long]: the item size of type code ['L'];
    - [ordered_dicts]: a dict is iterated in the order in which its keys
      were inserted, as on CPython from 3.7 on and on PyPy; on the older
      interpreters a dict is iterated in the order of its hash table. *)
Record platform : Type := {
  c_btrees : bool;
  python_implementation : string;
  has_long_long : bool;
  sizeof_long : Z;
  ordered_dicts : bool
}.

(** ** Built-in [dict] and [set] *)

Fixpoint dict_lookup (k : Z) (d : list (Z * Z)) : option Z :=
  match d with
  | [] => None
  | (k', v) :: d' => if decide (k = k') then Some v else dict_lookup k d'
  end.

(** [k in ks]. *)
Definition mem (k : Z) (ks : list Z) : bool := bool_decide (k ∈ ks).

(** The items of a dict are kept in the order in which the dict is
    iterated. *)

(** The value of an existing key is replaced in place; a new item goes
    last. *)
Fixpoint dict_put (k v : Z) (d : list (Z * Z)) : list (Z * Z) :=
  match d with
  | [] => [(k, v)]
  | (k', v') :: d' =>
      if decide (k = k') then (k, v) :: d' else (k', v') :: dict_put k v d'
  end.

(** Where dicts are not ordered by insertion, the order of iteration is
    that of the hash table: the language does not specify it, and a new
    key may rearrange the whole dict.  The order of [map_to_list] stands
    for it. *)
Definition hash_order (d : list (Z * Z)) : list (Z * Z) :=
  map_to_list (list_to_map d : gmap Z Z).

(** [d[k] = v] on interpreter [p]: an existing key keeps its place on
    every interpreter; a new key goes last where dicts are ordered by
    insertion, and elsewhere the dict takes the order of its hash
    table. *)
Definition dict_set (p : platform) (k v : Z) (d : list (Z * Z))
    : list (Z * Z) :=
  if ordered_dicts p || mem k d.*1 then dict_put k v d
  else hash_order (dict_put k v d).

(** [dict(d)] on a dict: a copy, in the order of the interpreter. *)
Definition dict_copy (p : platform) (d : list (Z * Z)) : list (Z * Z) :=
  if ordered_dicts p then d else hash_order d.

Definition dict_del (k : Z) (d : list (Z * Z)) : list (Z * Z) :=
  filter (λ kv, kv.1 ≠ k) d.

(** ** The 64-bit integer family of the BTrees package

    The package is an external dependency; its containers are modelled by
    what they hold, in iteration order: items (or keys) in strictly
    ascending key order. *)

Fixpoint ascending (ks : list Z) : bool :=
  match ks with
  | [] => true
  | k :: ks' =>
      match ks' with
      | [] => true
      | k' :: _ => (k <? k') && ascending ks'
      end
  end.

(** Insertion of an item at its place in key order; an existing key has
    its value replaced. *)
Fixpoint bt_insert (k v : Z) (b : list (Z * Z)) : list (Z * Z) :=
  match b with
  | [] => [(k, v)]
  | (k', v') :: b' =>
      if k <? k' then (k, v) :: b
      else if k =? k' then (k, v) :: b'
      else (k', v') :: bt_insert k v b'
  end.

Fixpoint ts_insert (k : Z) (s : list Z) : list Z :=
  match s with
  | [] => [k]
  | k' :: s' =>
      if k <? k' then k :: s
      else if k =? k' then s
      else k' :: ts_insert k s'
  end.

(** [BTrees.family64.maxint] and [minint].  The package declares them in
    its class [_Family64] as [maxint = 2**63 - 1] and
    [minint = -maxint - 1]: the bounds of a signed 64-bit integer. *)
Definition family64_maxint : Z := 2 ^ 63 - 1.
Definition family64_minint : Z := - family64_maxint - 1.

(** The integers a container of the 64-bit family takes as key or value:
    they are held as C [long long], and an integer outside its range
    is refused with [TypeError]. *)
Definition family64_fits (z : Z) : bool :=
  (family64_minint <=? z) && (z <=? family64_maxint).

(** ** Generic operations on objects *)

(** The keys an object yields when iterated, in iteration order.  The
    order in which a [set] is iterated is not specified by the language;
    [elements] stands for it. *)
Definition obj_iter (o : obj) : list Z :=
  match o with
  | PyDict items => items.*1
  | PySet s => elements s
  | LLBTree items => items.*1
  | LLTreeSet ks => ks
  | PyArray _ _ data => data
  end.

(** The keys (or elements) of a collection, as a mathematical set. *)
Definition obj_keys (o : obj) : gset Z := list_to_set (obj_iter o).

(** The value a map has at a key. *)
Definition obj_lookup (k : Z) (o : obj) : option Z :=
  match o with
  | PyDict items | LLBTree items => dict_lookup k items
  | _ => None
  end.

(** [len(o)]. *)
Definition obj_len (o : obj) : nat := length (obj_iter o).

(** Iteration: [list(c)], [for k in c]. *)
Definition py_iter (c : loc) : M (list Z) :=
  let! o := deref c in ret (obj_iter o).

(** Truth value of a container: it is true when not empty. *)
Definition py_bool (c : loc) : M bool :=
  let! o := deref c in ret (negb (Nat.eqb (obj_len o) 0)).

(** [m[k]]. *)
Definition py_getitem (m : loc) (k : Z) : M Z :=
  let! o := deref m in
  match o with
  | PyDict items | LLBTree items =>
      match dict_lookup k items with
      | Some v => ret v
      | None => raise KeyError
      end
  | _ => raise TypeError
  end.

(** [m[k] = v] on interpreter [p].  A BTree of the family takes a key
    and a value that fit a C [long long] only. *)
Definition py_setitem (p : platform) (m : loc) (k v : Z) : M unit :=
  let! o := deref m in
  match o with
  | PyDict items => store m (PyDict (dict_set p k v items))
  | LLBTree items =>
      if family64_fits k && family64_fits v
      then store m (LLBTree (bt_insert k v items))
      else raise TypeError
  | _ => raise TypeError
  end.

(** [del m[k]]. *)
Definition py_delitem (m : loc) (k : Z) : M unit :=
  let! o := deref m in
  match o with
  | PyDict items =>
      if mem k items.*1 then store m (PyDict (dict_del k items))
      else raise KeyError
  | LLBTree items =>
      if negb (family64_fits k) then raise TypeError
      else if mem k items.*1 then store m (LLBTree (dict_del k items))
      else raise KeyError
  | _ => raise TypeError
  end.

(** [max(iterable)] of integers. *)
Definition py_max (ks : list Z) : M Z :=
  match ks with
  | [] => raise ValueError
  | k :: ks' => ret (foldl Z.max k ks')
  end.

(** [dict()]. *)
Definition dict_new : M loc := alloc (PyDict []).

(** [dict(c)] on interpreter [p]: a copy of a mapping.  A set is accepted
    only when empty: its elements are integers, not key-value pairs. *)
Definition dict_of (p : platform) (c : loc) : M loc :=
  let! o := deref c in
  match o with
  | PyDict items => alloc (PyDict (dict_copy p items))
  | LLBTree items =>
      alloc (PyDict (foldl (λ d kv, dict_set p kv.1 kv.2 d) [] items))
  | _ => if Nat.eqb (obj_len o) 0 then alloc (PyDict []) else raise TypeError
  end.

(** [dict.keys(mapping)] (Python 3) or [dict.iterkeys(mapping)]
    (Python 2), called as a function of the class: the argument has to
    be a [dict]. *)
Definition iterkeys (mapping : loc) : M (list Z) :=
  let! o := deref mapping in
  match o with
  | PyDict items => ret (items.*1)
  | _ => raise TypeError
  end.

(** [set()]. *)
Definition set_new : M loc := alloc (PySet ∅).

(** [set(c)] for an iterable [c]. *)
Definition set_of (c : loc) : M loc :=
  let! ks := py_iter c in alloc (PySet (list_to_set ks)).

Definition deref_set (s : loc) : M (gset Z) :=
  let! o := deref s in
  match o with
  | PySet x => ret x
  | _ => raise TypeError
  end.

(** [s1 - s2] on two sets. *)
Definition set_sub (s1 s2 : loc) : M loc :=
  let! x1 := deref_set s1 in
  let! x2 := deref_set s2 in
  alloc (PySet (x1 ∖ x2)).

(** [s.union] applied to the unpacked sequence [others]: a new set; each
    of [others] is any iterable. *)
Fixpoint set_union_all (acc : gset Z) (others : list loc) : M (gset Z) :=
  match others with
  | [] => ret acc
  | c :: others' =>
      let! ks := py_iter c in
      set_union_all (acc ∪ list_to_set ks) others'
  end.

Definition set_union (s : loc) (others : list loc) : M loc :=
  let! x := deref_set s in
  let! u := set_union_all x others in
  alloc (PySet u).

(** [s1.intersection(s2)]. *)
Definition set_intersection (s1 s2 : loc) : M loc :=
  let! x1 := deref_set s1 in
  let! ks := py_iter s2 in
  alloc (PySet (x1 ∩ list_to_set ks)).

(** [set.discard(s, val)]. *)
Definition set_discard (s : loc) (val : Z) : M unit :=
  let! x := deref_set s in store s (PySet (x ∖ {[val]})).

(** ** Operations of the BTrees package *)

(** [BTree()] and [TreeSet()]. *)
Definition BTree_new : M loc := alloc (LLBTree []).
Definition TreeSet_new : M loc := alloc (LLTreeSet []).

(** [s.remove(val)]: [KeyError] when [val] is not in [s]; a tree set
    refuses with [TypeError] a value that does not fit a C
    [long long]. *)
Definition py_remove (s : loc) (val : Z) : M unit :=
  let! o := deref s in
  match o with
  | LLTreeSet ks =>
      if negb (family64_fits val) then raise TypeError
      else if mem val ks
      then store s (LLTreeSet (filter (λ k, k ≠ val) ks))
      else raise KeyError
  | PySet x =>
      if bool_decide (val ∈ x) then store s (PySet (x ∖ {[val]}))
      else raise KeyError
  | _ => raise AttributeError
  end.

(** [bt.maxKey()]: the last key; [ValueError] on an empty tree. *)
Definition maxKey (bt : loc) : M Z :=
  let! o := deref bt in
  match o with
  | LLBTree items =>
      match last items.*1 with
      | Some k => ret k
      | None => raise ValueError
      end
  | LLTreeSet ks =>
      match last ks with
      | Some k => ret k
      | None => raise ValueError
      end
  | _ => raise AttributeError
  end.

(** The keys of a container of the family; other objects are refused. *)
Definition family_keys (o : obj) : M (list Z) :=
  match o with
  | LLBTree items => ret (items.*1)
  | LLTreeSet ks => ret ks
  | _ => raise TypeError
  end.

(** [BTrees.family64.II.difference(c1, c2)]: the items (or keys) of [c1]
    whose key is not in [c2], as a new bucket when [c1] is a mapping and
    as a new set when [c1] is a set. *)
Definition II_difference (c1 c2 : loc) : M loc :=
  let! o1 := deref c1 in
  let! o2 := deref c2 in
  let! ks2 := family_keys o2 in
  match o1 with
  | LLBTree items => alloc (LLBTree (filter (λ kv, kv.1 ∉ ks2) items))
  | LLTreeSet ks => alloc (LLTreeSet (filter (λ k, k ∉ ks2) ks))
  | _ => raise TypeError
  end.

(** [BTrees.family64.II.multiunion(seq)]: the union of the keys of the
    containers of [seq], as a new set. *)
Fixpoint II_multiunion_all (acc : list Z) (seq : list loc) : M (list Z) :=
  match seq with
  | [] => ret acc
  | c :: seq' =>
      let! o := deref c in
      let! ks := family_keys o in
      II_multiunion_all (foldl (λ s k, ts_insert k s) acc ks) seq'
  end.

Definition II_multiunion (seq : list loc) : M loc :=
  let! u := II_multiunion_all [] seq in alloc (LLTreeSet u).

(** ** [array.array] *)

(** Item size of the type codes the module asks for: ['L'] exists on
    every interpreter, ['Q'] where [long long] is supported. *)
Definition typecode_itemsize (p : platform) (typecode : string) : option Z :=
  if decide (typecode = "L") then Some (sizeof_long p)
  else if decide (typecode = "Q") then
    if has_long_long p then Some 8 else None
  else None.

(** [array.array(typecode, initializer)]: [ValueError] on a type code the
    interpreter does not have. *)
Definition array_array (p : platform) (typecode : string) (init : list Z)
    : M loc :=
  match typecode_itemsize p typecode with
  | Some sz => alloc (PyArray typecode sz init)
  | None => raise ValueError
  end.

(** [a.itemsize]. *)
Definition array_itemsize (a : loc) : M Z :=
  let! o := deref a in
  match o with
  | PyArray _ sz _ => ret sz
  | _ => raise AttributeError
  end.

(** * The module *)

(** [PYPY = platform.python_implementation() == 'PyPy'] *)
Definition PYPY (p : platform) : bool :=
  bool_decide (python_implementation p = "PyPy").

(** ** With the C implementation of BTrees *)

Module Native.

Definition OID_TID_MAP_TYPE : M loc := BTree_new.
Definition OID_OBJECT_MAP_TYPE : M loc := BTree_new.
Definition OID_SET_TYPE : M loc := TreeSet_new.

Definition OidTMap_difference : loc → loc → M loc := II_difference.
Definition OidTMap_multiunion : list loc → M loc := II_multiunion.
Definition OidSet_difference : loc → loc → M loc := OidTMap_difference.

Definition OidSet_discard (s : loc) (val : Z) : M unit :=
  try_except (py_remove s val) KeyError (ret tt).

Definition OidObjectMap_max_key (bt : loc) : M Z :=
  let! t := py_bool bt in
  if negb t then ret 0
  else maxKey bt.

End Native.

(** ** Without it: built-in [dict] and [set] *)

Module Fallback.

Definition OID_TID_MAP_TYPE : M loc := dict_new.
Definition OID_OBJECT_MAP_TYPE : M loc := dict_new.
Definition OID_SET_TYPE : M loc := set_new.

(** The body of the comprehension [{k: c1[k] for k in ks}], filling the
    new dict [r]. *)
Fixpoint dict_comprehension (p : platform) (ks : list Z) (c1 r : loc)
    : M unit :=
  match ks with
  | [] => ret tt
  | k :: ks' =>
      let! v := py_getitem c1 k in
      py_setitem p r k v ;;
      dict_comprehension p ks' c1 r
  end.

Definition OidTMap_difference (p : platform) (c1 c2 : loc) : M loc :=
  let! c1 := dict_of p c1 in
  let! s1 := set_of c1 in
  let! s2 := set_of c2 in
  let! d := set_sub s1 s2 in
  let! ks := py_iter d in
  let! r := dict_new in
  dict_comprehension p ks c1 r ;;
  ret r.

Definition OidTMap_multiunion (seq : list loc) : M loc :=
  let! s := set_new in
  set_union s seq.

Definition OidTMap_intersection (c1 c2 : loc) : M loc :=
  let! s1 := set_of c1 in
  let! s2 := set_of c2 in
  set_intersection s1 s2.

Definition OidSet_difference (c1 c2 : loc) : M loc :=
  let! s1 := set_of c1 in
  let! s2 := set_of c2 in
  set_sub s1 s2.

Definition OidSet_discard : loc → Z → M unit := set_discard.

Definition OidObjectMap_max_key (mapping : loc) : M Z :=
  let! t := py_bool mapping in
  if negb t then ret 0
  else
    let! ks := iterkeys mapping in
    py_max ks.

End Fallback.

(** ** The bindings the module makes at import *)

Definition OID_TID_MAP_TYPE (p : platform) : M loc :=
  if c_btrees p then Native.OID_TID_MAP_TYPE else Fallback.OID_TID_MAP_TYPE.

Definition OID_OBJECT_MAP_TYPE (p : platform) : M loc :=
  if c_btrees p then Native.OID_OBJECT_MAP_TYPE
  else Fallback.OID_OBJECT_MAP_TYPE.

Definition OID_SET_TYPE (p : platform) : M loc :=
  if c_btrees p then Native.OID_SET_TYPE else Fallback.OID_SET_TYPE.

Definition OidTMap_difference (p : platform) : loc → loc → M loc :=
  if c_btrees p then Native.OidTMap_difference
  else Fallback.OidTMap_difference p.

Definition OidTMap_multiunion (p : platform) : list loc → M loc :=
  if c_btrees p then Native.OidTMap_multiunion
  else Fallback.OidTMap_multiunion.

Definition OidSet_difference (p : platform) : loc → loc → M loc :=
  if c_btrees p then Native.OidSet_difference
  else Fallback.OidSet_difference.

Definition OidSet_discard (p : platform) : loc → Z → M unit :=
  if c_btrees p then Native.OidSet_discard else Fallback.OidSet_discard.

Definition OidObjectMap_max_key (p : platform) : loc → M Z :=
  if c_btrees p then Native.OidObjectMap_max_key
  else Fallback.OidObjectMap_max_key.

(** The probe for a 64-bit unsigned array element.  Its result stands
    for the value left in [_64bit_array]: the type code bound by
    [functools.partial(array.array, code)], or [None]. *)
Definition _64bit_array (p : platform) : M (option string) :=
  try_except
    (array_array p "Q" [1] ;;
     ret (Some "Q"))
    ValueError
    (let! a := array_array p "L" [1] in
     let! sz := array_itemsize a in
     if 8 <=? sz then ret (Some "L") else ret None).

(** The type bound to [OidList] (and [TidList]). *)
Inductive list_type : Type :=
  | ArrayOf (typecode : string)
  | PyList.

(** [if _64bit_array and not PYPY: OidList = _64bit_array
     else: OidList = list]; a [partial] object is true, [None] is
    false. *)
Definition select_OidList (p : platform) (found : option string)
    : list_type :=
  match found with
  | Some code => if negb (PYPY p) then ArrayOf code else PyList
  | None => PyList
  end.

Definition OidList (p : platform) : M list_type :=
  let! a := _64bit_array p in
  ret (select_OidList p a).

Definition TidList : platform → M list_type := OidList.

(** [MAX_TID = BTrees.family64.maxint] *)
Definition MAX_TID : Z := family64_maxint.

(** * The collections of a backing *)

(** A map of the backing in use: with the C implementation a BTree or
    Bucket of the family, its keys ascending; without it a dict. *)
Definition is_map (p : platform) (o : obj) : bool :=
  match o with
  | LLBTree items => c_btrees p && ascending items.*1
  | PyDict _ => negb (c_btrees p)
  | _ => false
  end.

(** A set of the backing in use: a TreeSet or Set of the family, its
    keys ascending, or a built-in set. *)
Definition is_set (p : platform) (o : obj) : bool :=
  match o with
  | LLTreeSet ks => c_btrees p && ascending ks
  | PySet _ => negb (c_btrees p)
  | _ => false
  end.

Definition is_coll (p : platform) (o : obj) : bool :=
  is_map p o || is_set p o.

(** * Specifications

    The predicates in which the properties of the module are stated. *)

(** [wp m h Q]: from store [h], [m] returns normally, with a value and a
    final store that satisfy [Q]. *)
Definition wp {A} (m : M A) (h : heap) (Q : A → heap → Prop) : Prop :=
  match m h with
  | (Ok a, h') => Q a h'
  | (Raise _, _) => False
  end.

(** Stores only grow along a run without mutation. *)
Ltac heap_sub :=
  first [ eassumption | reflexivity
        | match goal with
          | H : _ ⊆ ?h2 |- _ ⊆ ?h2 => (etrans; [|exact H]); heap_sub
          end ].

Ltac heap_lookup :=
  first [ eassumption
        | match goal with
          | H : ?h1 !! ?l = Some _ |- _ !! ?l = Some _ =>
              apply (lookup_weaken h1 _ _ _ H); heap_sub
          | H : ?h2 !! ?l = None |- _ !! ?l = None =>
              apply (lookup_weaken_None _ h2 _ H); heap_sub
          end ].

(** The two kinds of collection the operations are bound for. *)
Inductive kind : Type :=
  | Maps
  | Sets.

Definition is_kind (p : platform) (c : kind) (o : obj) : bool :=
  match c with
  | Maps => is_map p o
  | Sets => is_set p o
  end.

(** [difference] as the module offers it: [OidTMap_difference] for maps
    and [OidSet_difference] for sets. *)
Definition difference (p : platform) (c : kind) : loc → loc → M loc :=
  match c with
  | Maps => OidTMap_difference p
  | Sets => OidSet_difference p
  end.

(** Two collections are equal when they have the same keys and, for
    maps, the same value at each key. *)
Definition same_content (o1 o2 : obj) : Prop :=
  obj_keys o1 = obj_keys o2 ∧ ∀ k, obj_lookup k o1 = obj_lookup k o2.

(** Interpreters to run examples on: CPython 3.7 or later with the C
    implementation of BTrees and without it, and PyPy, where BTrees
    comes without its C implementation. *)
Definition cpython3 : platform :=
  {| c_btrees := true; python_implementation := "CPython";
     has_long_long := true; sizeof_long := 8; ordered_dicts := true |}.

Definition pure_python : platform :=
  {| c_btrees := false; python_implementation := "CPython";
     has_long_long := true; sizeof_long := 8; ordered_dicts := true |}.

Definition pypy3 : platform :=
  {| c_btrees := false; python_implementation := "PyPy";
     has_long_long := true; sizeof_long := 8; ordered_dicts := true |}.

(** Every reference of the sequence denotes a set of the backing. *)
Definition all_sets (p : platform) (h : heap) (seq : list loc) : bool :=
  forallb (λ l, match h !! l with
                | Some o => is_set p o
                | None => false
                end) seq.

(** The keys of the object at a reference. *)
Definition keys_at (h : heap) (l : loc) : gset Z :=
  match h !! l with
  | Some o => obj_keys o
  | None => ∅
  end.

(** The union of the sets a sequence of references denotes. *)
Definition union_of (h : heap) (seq : list loc) : gset Z :=
  ⋃ (keys_at h <$> seq).

(** The keys of the collection a computation returns. *)
Definition returned_keys (m : M loc) (h : heap) : option (gset Z) :=
  match m h with
  | (Ok r, h') => obj_keys <$> h' !! r
  | (Raise _, _) => None
  end.

(** An update of a map: [m[k] = v], or [del m[k]] guarded against a
    missing key ([try: del m[k] except KeyError: pass]). *)
Inductive map_op : Type :=
  | SetItem (k v : Z)
  | DelItem (k : Z).

Definition apply_op (p : platform) (m : loc) (op : map_op) : M unit :=
  match op with
  | SetItem k v => py_setitem p m k v
  | DelItem k => try_except (py_delitem m k) KeyError (ret tt)
  end.

Fixpoint apply_ops (p : platform) (m : loc) (ops : list map_op) : M unit :=
  match ops with
  | [] => ret tt
  | op :: ops' => apply_op p m op ;; apply_ops p m ops'
  end.

(** The keys and values of the updates fit a C [long long]. *)
Definition op_fits (op : map_op) : bool :=
  match op with
  | SetItem k v => family64_fits k && family64_fits v
  | DelItem k => family64_fits k
  end.

Definition ops_fit (ops : list map_op) : bool := forallb op_fits ops.

(** A new [OID_TID_MAP_TYPE()] map is updated by [ops] and then iterated
    in full: the keys in the order the iteration yields them. *)
Definition iterate_after (p : platform) (ops : list map_op) : M (list Z) :=
  let! m := OID_TID_MAP_TYPE p in
  apply_ops p m ops ;;
  py_iter m.

(** The keys a sequence of updates leaves, in the order in which they
    were first inserted. *)
Definition order_step (ks : list Z) (op : map_op) : list Z :=
  match op with
  | SetItem k _ => if mem k ks then ks else ks ++ [k]
  | DelItem k => filter (λ k', k' ≠ k) ks
  end.

Definition insertion_order (ops : list map_op) : list Z :=
  foldl order_step [] ops.

(** CPython 2 on a 32-bit platform (no ['Q'], 4-byte [long]) and on a
    64-bit platform. *)
Definition cpython2_32bit : platform :=
  {| c_btrees := true; python_implementation := "CPython";
     has_long_long := false; sizeof_long := 4; ordered_dicts := false |}.

Definition cpython2_64bit : platform :=
  {| c_btrees := true; python_implementation := "CPython";
     has_long_long := false; sizeof_long := 8; ordered_dicts := false |}.

(** * Further functions of the module *)

(** ** Version flags *)

(** [sys.version_info], its first two fields. *)
Record version_info : Type := {
  major : Z;
  minor : Z
}.

(** Comparison of tuples of integers: by the first position at which
    they differ; a proper prefix is the smaller one. *)
Fixpoint tuple_lt (a b : list Z) : bool :=
  match a, b with
  | [], [] => false
  | [], _ :: _ => true
  | _ :: _, [] => false
  | x :: a', y :: b' =>
      if x <? y then true
      else if x =? y then tuple_lt a' b'
      else false
  end.

Definition tuple_ge (a b : list Z) : bool := negb (tuple_lt a b).

(** [PY3 = sys.version_info[0] == 3] *)
Definition PY3 (v : version_info) : bool := major v =? 3.

(** [PY36 = sys.version_info[:2] >= (3, 6)] *)
Definition PY36 (v : version_info) : bool :=
  tuple_ge [major v; minor v] [3; 6].

(** [PY2 = not PY3] *)
Definition PY2 (v : version_info) : bool := negb (PY3 v).

(** ** Items of a map *)

(** A mapping: a dict, or a BTree or Bucket. *)
Definition is_mapping (o : obj) : bool :=
  match o with
  | PyDict _ | LLBTree _ => true
  | _ => false
  end.

(** The items of a mapping, in iteration order. *)
Definition obj_items (o : obj) : list (Z * Z) :=
  match o with
  | PyDict items | LLBTree items => items
  | _ => []
  end.

(** [hasattr(d, 'iteritems')]: the mappings of BTrees have the method on
    every version of Python, a dict on Python 2 only.  The function is
    meant for maps; the other objects are given neither [iteritems] nor
    [items]. *)
Definition hasattr_iteritems (v : version_info) (d : loc) : M bool :=
  let! o := deref d in
  match o with
  | LLBTree _ => ret true
  | PyDict _ => ret (major v <? 3)
  | _ => ret false
  end.

(** [d.iteritems()]. *)
Definition py_iteritems (v : version_info) (d : loc) : M (list (Z * Z)) :=
  let! o := deref d in
  match o with
  | LLBTree items => ret items
  | PyDict items => if major v <? 3 then ret items else raise AttributeError
  | _ => raise AttributeError
  end.

(** [d.items()]. *)
Definition py_items (d : loc) : M (list (Z * Z)) :=
  let! o := deref d in
  match o with
  | PyDict items | LLBTree items => ret items
  | _ => raise AttributeError
  end.

(** [iteroiditems(d)] *)
Definition iteroiditems (v : version_info) (d : loc) : M (list (Z * Z)) :=
  let! t := hasattr_iteritems v d in
  if t then py_iteritems v d else py_items d.

(** ** Programs that combine the operations *)

(** [r = OidSet_difference(a, b); OidSet_discard(r, v)] *)
Definition difference_then_discard (p : platform) (a b : loc) (v : Z)
    : M loc :=
  let! r := OidSet_difference p a b in
  OidSet_discard p r v ;;
  ret r.

(** [OidObjectMap_max_key(OidTMap_difference(a, b))] *)
Definition max_key_of_difference (p : platform) (a b : loc) : M Z :=
  let! r := OidTMap_difference p a b in
  OidObjectMap_max_key p r.

(** [OidTMap_multiunion([OidSet_difference(a, b),
                         OidTMap_intersection(a, b)])]
    with the functions of the fallback. *)
Definition union_of_parts (a b : loc) : M loc :=
  let! d := Fallback.OidSet_difference a b in
  let! i := Fallback.OidTMap_intersection a b in
  Fallback.OidTMap_multiunion [d; i].

(** A new map is updated by [ops], then [m[k]] is read. *)
Definition lookup_after (p : platform) (ops : list map_op) (k : Z) : M Z :=
  let! m := OID_TID_MAP_TYPE p in
  apply_ops p m ops ;;
  py_getitem m k.

(** The value a sequence of updates leaves at key [k], if any. *)
Definition value_step (k : Z) (cur : option Z) (op : map_op) : option Z :=
  match op with
  | SetItem k' v => if decide (k = k') then Some v else cur
  | DelItem k' => if decide (k = k') then None else cur
  end.

Definition final_value (ops : list map_op) (k : Z) : option Z :=
  foldl (value_step k) None ops.

(** ** Function wrappers on Python 2

    The branch of the module taken when [PY3] is false defines its own
    [wraps] and [update_wrapper] over those of [functools], so that the
    attribute [__wrapped__] gets set.  The objects are Python functions
    ([def] or [lambda]): [__module__], [__name__] and [__doc__] are
    attributes of every function, all other attributes live in its
    [__dict__]. *)

(** The value of an attribute: [None], a string, or a reference. *)
Inductive pyval : Type :=
  | VNone
  | VStr (s : string)
  | VObj (l : loc).

Record pyfunc : Type := {
  fn_module : pyval;
  fn_name : string;
  fn_doc : pyval;
  fn_dict : gmap string pyval
}.

Abbreviation fstore := (gmap loc pyfunc).

Definition F (A : Type) : Type := fstore → result A * fstore.

Definition fret {A} (a : A) : F A := λ s, (Ok a, s).

Definition fbind {A B} (m : F A) (f : A → F B) : F B :=
  λ s, match m s with
       | (Ok a, s') => f a s'
       | (Raise e, s') => (Raise e, s')
       end.

Definition fraise {A} (e : exn) : F A := λ s, (Raise e, s).

Notation "'do!' x ':=' m 'in' k" := (fbind m (λ x, k))
  (at level 10, x name, m at level 100, k at level 200).
Notation "m ';;;' k" := (fbind m (λ _, k))
  (at level 100, k at level 200, right associativity).

Definition fderef (o : loc) : F pyfunc :=
  λ s, match s !! o with
       | Some f => (Ok f, s)
       | None => (Raise SystemError, s)
       end.

(** [getattr(o, name)] *)
Definition py_getattr (o : loc) (name : string) : F pyval :=
  do! f := fderef o in
  if decide (name = "__module__") then fret (fn_module f)
  else if decide (name = "__name__") then fret (VStr (fn_name f))
  else if decide (name = "__doc__") then fret (fn_doc f)
  else match fn_dict f !! name with
       | Some v => fret v
       | None => fraise AttributeError
       end.

(** [setattr(o, name, v)]; the name of a function has to be a string. *)
Definition py_setattr (o : loc) (name : string) (v : pyval) : F unit :=
  do! f := fderef o in
  if decide (name = "__module__") then
    λ s, (Ok tt, <[o := {| fn_module := v; fn_name := fn_name f;
                           fn_doc := fn_doc f; fn_dict := fn_dict f |}]> s)
  else if decide (name = "__name__") then
    match v with
    | VStr n =>
        λ s, (Ok tt, <[o := {| fn_module := fn_module f; fn_name := n;
                               fn_doc := fn_doc f; fn_dict := fn_dict f |}]> s)
    | _ => fraise TypeError
    end
  else if decide (name = "__doc__") then
    λ s, (Ok tt, <[o := {| fn_module := fn_module f; fn_name := fn_name f;
                           fn_doc := v; fn_dict := fn_dict f |}]> s)
  else
    λ s, (Ok tt, <[o := {| fn_module := fn_module f; fn_name := fn_name f;
                           fn_doc := fn_doc f;
                           fn_dict := <[name := v]> (fn_dict f) |}]> s).

(** [wrapper.__dict__.update(wrapped.__dict__)] *)
Definition dict_update (wrapper wrapped : loc) : F unit :=
  do! fw := fderef wrapped in
  do! f := fderef wrapper in
  λ s, (Ok tt, <[wrapper := {| fn_module := fn_module f;
                               fn_name := fn_name f;
                               fn_doc := fn_doc f;
                               fn_dict := fn_dict fw ∪ fn_dict f |}]> s).

Definition WRAPPER_ASSIGNMENTS : list string :=
  ["__module__"; "__name__"; "__doc__"].

(** [for attr in assigned: setattr(wrapper, attr, getattr(wrapped, attr))] *)
Fixpoint assign_attrs (wrapper wrapped : loc) (assigned : list string)
    : F unit :=
  match assigned with
  | [] => fret tt
  | attr :: assigned' =>
      do! v := py_getattr wrapped attr in
      py_setattr wrapper attr v ;;;
      assign_attrs wrapper wrapped assigned'
  end.

(** [functools.update_wrapper(wrapper, wrapped)] of Python 2, with its
    default [assigned] and [updated]. *)
Definition functools_update_wrapper (wrapper wrapped : loc) : F loc :=
  assign_attrs wrapper wrapped WRAPPER_ASSIGNMENTS ;;;
  dict_update wrapper wrapped ;;;
  fret wrapper.

(** [functools.wraps(wrapped)]: [update_wrapper] with [wrapped] bound. *)
Definition functools_wraps (wrapped : loc) : loc → F loc :=
  λ wrapper, functools_update_wrapper wrapper wrapped.

(** An instance of the class [wraps] of the module. *)
Record wraps : Type := {
  _orig : loc;
  _wrapper : loc → F loc
}.

(** [wraps.__init__(self, func)] *)
Definition wraps_init (func : loc) : wraps :=
  {| _orig := func; _wrapper := functools_wraps func |}.

(** [wraps.__call__(self, replacement)] *)
Definition wraps_call (self : wraps) (replacement : loc) : F loc :=
  do! replacement := _wrapper self replacement in
  py_setattr replacement "__wrapped__" (VObj (_orig self)) ;;;
  fret replacement.

(** [update_wrapper(wrapper, wrapped)] of the module on Python 2, called
    with its two positional arguments. *)
Definition update_wrapper (wrapper wrapped : loc) : F loc :=
  do! wrapper := functools_update_wrapper wrapper wrapped in
  py_setattr wrapper "__wrapped__" (VObj wrapped) ;;;
  fret wrapped.

(** A new [OID_OBJECT_MAP_TYPE()] map is updated by [ops], then its
    greatest key is asked for. *)
Definition max_key_after (p : platform) (ops : list map_op) : M Z :=
  let! m := OID_OBJECT_MAP_TYPE p in
  apply_ops p m ops ;;
  OidObjectMap_max_key p m.

(** [OidSet_difference(a, OidTMap_multiunion([b, c]))] *)
Definition difference_of_union (p : platform) (a b c : loc) : M loc :=
  let! u := OidTMap_multiunion p [b; c] in
  OidSet_difference p a u.

(** [OidSet_difference(OidSet_difference(a, b), c)] *)
Definition difference_twice (p : platform) (a b c : loc) : M loc :=
  let! d := OidSet_difference p a b in
  OidSet_difference p d c.


(** * Reasoning about computations *)

Section wp_rules.
Context {A B : Type}.

Lemma wp_ret (a : A) h Q : Q a h → wp (ret a) h Q.
Proof. done. Qed.

Lemma wp_bind (m : M A) (f : A → M B) h Q :
  wp m h (λ a h', wp (f a) h' Q) → wp (bind m f) h Q.
Proof. unfold wp, bind. by destruct (m h) as [[a|e] h']. Qed.

Lemma wp_run (m : M A) h Q :
  wp m h Q ↔ ∃ a h', m h = (Ok a, h') ∧ Q a h'.
Proof.
  unfold wp. destruct (m h) as [[a|e] h']; split; try naive_solver.
Qed.
End wp_rules.

Lemma wp_deref l o h Q : h !! l = Some o → Q o h → wp (deref l) h Q.
Proof. intros Hl HQ. unfold wp, deref. by rewrite Hl. Qed.

Lemma wp_store l o h Q : Q tt (<[l := o]> h) → wp (store l o) h Q.
Proof. done. Qed.

(** An allocation extends the store and changes nothing in it. *)
Lemma wp_alloc o h (Q : loc → heap → Prop) :
  (∀ l h', h !! l = None → h ⊆ h' → h' !! l = Some o → Q l h') →
  wp (alloc o) h Q.
Proof.
  intros HQ. unfold wp, alloc. simpl.
  assert (h !! fresh (dom h) = None) as Hf
    by (apply not_elem_of_dom, is_fresh).
  apply HQ; [done | by apply insert_subseteq | by rewrite lookup_insert_eq].
Qed.

Lemma wp_py_iter c o h Q :
  h !! c = Some o → Q (obj_iter o) h → wp (py_iter c) h Q.
Proof. intros Hc HQ. apply wp_bind, (wp_deref _ o); done. Qed.

Lemma wp_deref_set s x h Q :
  h !! s = Some (PySet x) → Q x h → wp (deref_set s) h Q.
Proof. intros Hs HQ. apply wp_bind, (wp_deref _ (PySet x)); done. Qed.

Lemma wp_set_of c o h (Q : loc → heap → Prop) :
  h !! c = Some o →
  (∀ l h', h !! l = None → h ⊆ h' → h' !! l = Some (PySet (obj_keys o)) →
           Q l h') →
  wp (set_of c) h Q.
Proof.
  intros Hc HQ. apply wp_bind, (wp_py_iter _ o); [done|].
  by apply wp_alloc.
Qed.

Lemma wp_set_sub s1 s2 x1 x2 h (Q : loc → heap → Prop) :
  h !! s1 = Some (PySet x1) → h !! s2 = Some (PySet x2) →
  (∀ l h', h !! l = None → h ⊆ h' → h' !! l = Some (PySet (x1 ∖ x2)) →
           Q l h') →
  wp (set_sub s1 s2) h Q.
Proof.
  intros H1 H2 HQ.
  apply wp_bind, (wp_deref_set _ x1); [done|].
  apply wp_bind, (wp_deref_set _ x2); [done|].
  by apply wp_alloc.
Qed.

(** * Facts on dicts and on ascending lists *)

Lemma dict_lookup_is_Some k d : is_Some (dict_lookup k d) ↔ k ∈ d.*1.
Proof.
  induction d as [|[k' v] d IH]; simpl.
  - split; [by intros [? ?] | by intros ?%elem_of_nil].
  - case_decide; subst; rewrite elem_of_cons; [naive_solver|].
    rewrite IH. naive_solver.
Qed.

Lemma dict_lookup_None k d : dict_lookup k d = None ↔ k ∉ d.*1.
Proof. rewrite <- dict_lookup_is_Some, eq_None_not_Some. done. Qed.

Lemma dict_lookup_put k' k v d :
  dict_lookup k' (dict_put k v d)
  = if decide (k' = k) then Some v else dict_lookup k' d.
Proof.
  induction d as [|[k1 v1] d IH]; simpl.
  - by repeat case_decide.
  - repeat (case_decide; simpl; subst); try done; congruence.
Qed.

Lemma dict_lookup_list_to_map k (d : list (Z * Z)) :
  dict_lookup k d = (list_to_map d : gmap Z Z) !! k.
Proof.
  induction d as [|[k1 v1] d IH]; simpl; [done|].
  rewrite lookup_insert, IH. by repeat case_decide.
Qed.

Lemma dict_lookup_hash_order k d :
  dict_lookup k (hash_order d) = dict_lookup k d.
Proof.
  unfold hash_order.
  by rewrite !dict_lookup_list_to_map, list_to_map_to_list.
Qed.

Lemma dict_lookup_set p k' k v d :
  dict_lookup k' (dict_set p k v d)
  = if decide (k' = k) then Some v else dict_lookup k' d.
Proof.
  unfold dict_set. destruct (ordered_dicts p || mem k d.*1).
  - apply dict_lookup_put.
  - rewrite dict_lookup_hash_order. apply dict_lookup_put.
Qed.

Lemma dict_lookup_copy p k d : dict_lookup k (dict_copy p d) = dict_lookup k d.
Proof.
  unfold dict_copy. destruct (ordered_dicts p); [done|].
  apply dict_lookup_hash_order.
Qed.

Lemma dict_lookup_filter (P : Z → Prop) `{!∀ k, Decision (P k)} k d :
  dict_lookup k (filter (λ kv, P kv.1) d)
  = if decide (P k) then dict_lookup k d else None.
Proof.
  induction d as [|[k1 v1] d IH]; simpl.
  - by case_decide.
  - rewrite filter_cons. simpl.
    destruct (decide (P k1)) as [HP1|HP1]; simpl; rewrite IH;
      repeat case_decide; subst; done.
Qed.

Lemma dict_put_keys k v d :
  (dict_put k v d).*1 = if mem k d.*1 then d.*1 else d.*1 ++ [k].
Proof.
  unfold mem. induction d as [|[k1 v1] d IH]; csimpl; [done|].
  destruct (decide (k = k1)) as [->|Hne]; csimpl.
  - rewrite bool_decide_eq_true_2; [done | apply elem_of_cons; by left].
  - rewrite IH. destruct (bool_decide_reflect (k ∈ d.*1)) as [Hin|Hin].
    + rewrite bool_decide_eq_true_2; [done | apply elem_of_cons; by right].
    + rewrite bool_decide_eq_false_2; [done|].
      rewrite elem_of_cons. naive_solver.
Qed.

(** Where dicts are ordered by insertion, a new key goes last. *)
Lemma dict_set_keys p k v d :
  ordered_dicts p = true →
  (dict_set p k v d).*1 = if mem k d.*1 then d.*1 else d.*1 ++ [k].
Proof.
  intros Hp. unfold dict_set. rewrite Hp. apply dict_put_keys.
Qed.

(** On every interpreter, the dict holds its former keys and the new
    one, each once. *)
Lemma dict_set_elem p x k v d :
  x ∈ (dict_set p k v d).*1 ↔ x = k ∨ x ∈ d.*1.
Proof.
  rewrite <- !dict_lookup_is_Some, dict_lookup_set.
  case_decide; [|naive_solver]. split; [by left | by eexists].
Qed.

Lemma dict_set_NoDup p k v d :
  NoDup d.*1 → NoDup (dict_set p k v d).*1.
Proof.
  intros Hd. unfold dict_set.
  destruct (ordered_dicts p || mem k d.*1).
  - rewrite dict_put_keys. unfold mem.
    destruct (bool_decide_reflect (k ∈ d.*1)) as [Hin|Hin]; [done|].
    apply NoDup_app. split_and!; [done | | apply NoDup_singleton].
    intros x Hx ->%list_elem_of_singleton. done.
  - unfold hash_order. apply NoDup_fst_map_to_list.
Qed.

Lemma dict_del_keys k (d : list (Z * Z)) :
  (dict_del k d).*1 = filter (λ k', k' ≠ k) d.*1.
Proof.
  unfold dict_del. induction d as [|[k1 v1] d IH]; csimpl; [done|].
  rewrite !filter_cons. csimpl. case_decide; csimpl; by rewrite IH.
Qed.

(** [ascending] as a predicate: every key is below all the later ones. *)
Lemma ascending_cons k ks :
  ascending (k :: ks) = true ↔ (∀ x, x ∈ ks → k < x) ∧ ascending ks = true.
Proof.
  revert k. induction ks as [|k' ks IH]; intros k.
  - simpl. split; [intros _; split; [by intros ? ?%elem_of_nil|done]|done].
  - change (ascending (k :: k' :: ks))
      with ((k <? k') && ascending (k' :: ks)).
    rewrite andb_true_iff, Z.ltb_lt. split.
    + intros [Hlt Hasc]. split; [|done].
      intros x [->|Hx]%elem_of_cons; [done|].
      apply IH in Hasc as [Hall _]. specialize (Hall x Hx). lia.
    + intros [Hall Hasc]. split; [|done]. apply Hall, elem_of_cons. by left.
Qed.

Lemma ascending_filter (P : Z → Prop) `{!∀ k, Decision (P k)} ks :
  ascending ks = true → ascending (filter P ks) = true.
Proof.
  induction ks as [|k ks IH]; [done|].
  intros [Hall Hasc]%ascending_cons. rewrite filter_cons.
  case_decide; [|by apply IH].
  apply ascending_cons. split; [|by apply IH].
  intros x [_ Hx]%list_elem_of_filter. by apply Hall.
Qed.

Lemma ascending_last k ks z :
  ascending (k :: ks) = true → last (k :: ks) = Some z →
  ∀ x, x ∈ k :: ks → x ≤ z.
Proof.
  revert k. induction ks as [|k' ks IH]; intros k Hasc Hlast x Hx.
  - simpl in Hlast. apply list_elem_of_singleton in Hx.
    injection Hlast as <-. lia.
  - apply ascending_cons in Hasc as [Hall Hasc].
    change (last (k :: k' :: ks)) with (last (k' :: ks)) in Hlast.
    assert (k' ∈ k' :: ks) as Hk' by (apply elem_of_cons; by left).
    assert (k' ≤ z) by (by apply (IH k')).
    apply elem_of_cons in Hx as [->|Hx].
    + specialize (Hall k' Hk'). lia.
    + by apply (IH k').
Qed.

Lemma ts_insert_elem x k s : x ∈ ts_insert k s ↔ x = k ∨ x ∈ s.
Proof.
  induction s as [|k' s IH]; simpl.
  - rewrite list_elem_of_singleton, elem_of_nil. naive_solver.
  - destruct (Z.ltb_spec k k'); [by rewrite elem_of_cons|].
    destruct (Z.eqb_spec k k'); subst.
    + rewrite elem_of_cons. naive_solver.
    + rewrite !elem_of_cons, IH. naive_solver.
Qed.

Lemma ts_insert_ascending k s :
  ascending s = true → ascending (ts_insert k s) = true.
Proof.
  induction s as [|k' s IH]; [done|]. intros Hs. simpl.
  destruct (Z.ltb_spec k k').
  - apply ascending_cons. split; [|done].
    apply ascending_cons in Hs as [Hall _].
    intros x [->|Hx]%elem_of_cons; [done|]. specialize (Hall x Hx). lia.
  - destruct (Z.eqb_spec k k'); [done|].
    apply ascending_cons in Hs as [Hall Hs].
    apply ascending_cons. split; [|by apply IH].
    intros x [->|Hx]%ts_insert_elem; [lia | by apply Hall].
Qed.

Lemma bt_insert_keys k v b : (bt_insert k v b).*1 = ts_insert k b.*1.
Proof.
  induction b as [|[k' v'] b IH]; csimpl; [done|].
  destruct (k <? k'); [done|].
  destruct (Z.eqb_spec k k'); csimpl; [by subst | by rewrite IH].
Qed.

Lemma fmap_fst_filter (P : Z → Prop) `{!∀ k, Decision (P k)}
    (d : list (Z * Z)) :
  (filter (λ kv, P kv.1) d).*1 = filter P d.*1.
Proof.
  induction d as [|[k v] d IH]; csimpl; [done|].
  rewrite !filter_cons. csimpl. case_decide; csimpl; by rewrite IH.
Qed.

Lemma obj_lookup_is_Some p o k :
  is_map p o = true → is_Some (obj_lookup k o) ↔ k ∈ obj_keys o.
Proof.
  unfold obj_keys. rewrite elem_of_list_to_set.
  destruct o; simpl; try done; intros _; apply dict_lookup_is_Some.
Qed.

Lemma family_keys_run p o h :
  c_btrees p = true → is_coll p o = true →
  family_keys o h = (Ok (obj_iter o), h).
Proof.
  unfold is_coll. intros Hp.
  destruct o; simpl; rewrite ?Hp; simpl; done.
Qed.

(** * Difference *)

Lemma wp_dict_comprehension p ks c1 r d1 :
  ∀ dr h (Q : unit → heap → Prop),
  c1 ≠ r →
  h !! c1 = Some (PyDict d1) → h !! r = Some (PyDict dr) →
  (∀ k, k ∈ ks → is_Some (dict_lookup k d1)) →
  (∀ dr', (∀ k, dict_lookup k dr'
                = if decide (k ∈ ks) then dict_lookup k d1
                  else dict_lookup k dr) →
          Q tt (<[r := PyDict dr']> h)) →
  wp (Fallback.dict_comprehension p ks c1 r) h Q.
Proof.
  induction ks as [|k ks IH]; intros dr h Q Hne Hc1 Hr Hks HQ; simpl.
  - apply wp_ret. rewrite <- (insert_id h r (PyDict dr)) at 1 by done.
    apply HQ. intros k. case_decide as Hk; [|done].
    by apply elem_of_nil in Hk.
  - destruct (Hks k) as [v Hv]; [apply elem_of_cons; by left|].
    apply wp_bind. unfold py_getitem.
    apply wp_bind, (wp_deref _ (PyDict d1)); [done|]. rewrite Hv.
    apply wp_ret, wp_bind. unfold py_setitem.
    apply wp_bind, (wp_deref _ (PyDict dr)); [done|].
    apply wp_store.
    apply (IH (dict_set p k v dr)); [done| |by rewrite lookup_insert_eq| |].
    + by rewrite lookup_insert_ne.
    + intros k' Hk'. apply Hks, elem_of_cons. by right.
    + intros dr' Hdr'. rewrite insert_insert_eq. apply HQ.
      intros k'. rewrite Hdr', dict_lookup_set.
      destruct (decide (k' ∈ k :: ks)) as [Hin|Hin];
        destruct (decide (k' ∈ ks)) as [Hin'|Hin'];
        destruct (decide (k' = k)) as [->|Hk']; try done;
        rewrite elem_of_cons in Hin; naive_solver.
Qed.

Lemma Fallback_OidTMap_difference_wp p h c1 c2 d1 o2 :
  h !! c1 = Some (PyDict d1) → h !! c2 = Some o2 →
  wp (Fallback.OidTMap_difference p c1 c2) h (λ r h',
    h !! r = None ∧ h ⊆ h' ∧
    ∃ d, h' !! r = Some (PyDict d) ∧
         ∀ k, dict_lookup k d
              = if decide (k ∈ obj_keys o2) then None else dict_lookup k d1).
Proof.
  intros H1 H2. unfold Fallback.OidTMap_difference.
  set (d1' := dict_copy p d1).
  assert (∀ k, k ∈ d1'.*1 ↔ k ∈ d1.*1) as Hcopy.
  { intros k. unfold d1'.
    by rewrite <- !dict_lookup_is_Some, dict_lookup_copy. }
  apply wp_bind. unfold dict_of.
  apply wp_bind, (wp_deref _ (PyDict d1)); [done|].
  apply wp_alloc. fold d1'. intros l1 h1 Hf1 Hs1 Hl1.
  apply wp_bind, (wp_set_of _ (PyDict d1')); [done|].
  intros l2 h2 Hf2 Hs2 Hl2.
  apply wp_bind, (wp_set_of _ o2); [heap_lookup|].
  intros l3 h3 Hf3 Hs3 Hl3.
  apply wp_bind,
    (wp_set_sub _ _ (obj_keys (PyDict d1')) (obj_keys o2));
    [heap_lookup | done |].
  intros l4 h4 Hf4 Hs4 Hl4.
  apply wp_bind,
    (wp_py_iter _ (PySet (obj_keys (PyDict d1') ∖ obj_keys o2))); [done|].
  apply wp_bind, wp_alloc. intros r h5 Hf5 Hs5 Hl5.
  assert (h4 !! l1 = Some (PyDict d1')) as Hl1' by heap_lookup.
  assert (h ⊆ h4) as Hs04 by heap_sub.
  assert (∀ k, k ∈ obj_iter (PySet (obj_keys (PyDict d1') ∖ obj_keys o2))
               ↔ k ∈ d1.*1 ∧ k ∉ obj_keys o2) as Hks.
  { intros k. simpl. rewrite elem_of_elements, elem_of_difference.
    unfold obj_keys at 1. simpl. by rewrite elem_of_list_to_set, Hcopy. }
  apply wp_bind, (wp_dict_comprehension _ _ _ _ d1' []);
    [congruence | heap_lookup | done | |].
  { intros k [Hk _]%Hks. by apply dict_lookup_is_Some, Hcopy. }
  intros dr' Hdr'. apply wp_ret. split_and!.
  - heap_lookup.
  - apply insert_subseteq_r; [heap_lookup | heap_sub].
  - exists dr'. split; [by rewrite lookup_insert_eq|].
    intros k. rewrite Hdr'.
    assert (dict_lookup k d1' = dict_lookup k d1) as ->
      by apply dict_lookup_copy.
    specialize (Hks k).
    destruct (decide (k ∈ obj_keys o2)) as [Hin|Hin].
    + rewrite decide_False; [done | naive_solver].
    + case_decide as Hk; [done|]. symmetry. apply dict_lookup_None.
      naive_solver.
Qed.

Lemma wp_family_keys p o h (Q : list Z → heap → Prop) :
  c_btrees p = true → is_coll p o = true →
  Q (obj_iter o) h → wp (family_keys o) h Q.
Proof.
  intros Hp Ho HQ. unfold wp. by rewrite (family_keys_run p).
Qed.

Lemma obj_keys_PySet x : obj_keys (PySet x) = x.
Proof. unfold obj_keys. simpl. apply list_to_set_elements_L. Qed.

Lemma II_difference_map_wp p h c1 c2 items o2 :
  c_btrees p = true →
  h !! c1 = Some (LLBTree items) → h !! c2 = Some o2 →
  is_coll p o2 = true →
  wp (II_difference c1 c2) h (λ r h',
    h !! r = None ∧ h ⊆ h' ∧
    h' !! r = Some (LLBTree (filter (λ kv, kv.1 ∉ obj_iter o2) items))).
Proof.
  intros Hp H1 H2 Ho2. unfold II_difference.
  apply wp_bind, (wp_deref _ (LLBTree items)); [done|].
  apply wp_bind, (wp_deref _ o2); [done|].
  apply wp_bind, (wp_family_keys p); [done..|].
  apply wp_alloc. by intros r h' Hf Hs Hr.
Qed.

Lemma II_difference_set_wp p h c1 c2 ks o2 :
  c_btrees p = true →
  h !! c1 = Some (LLTreeSet ks) → h !! c2 = Some o2 →
  is_coll p o2 = true →
  wp (II_difference c1 c2) h (λ r h',
    h !! r = None ∧ h ⊆ h' ∧
    h' !! r = Some (LLTreeSet (filter (λ k, k ∉ obj_iter o2) ks))).
Proof.
  intros Hp H1 H2 Ho2. unfold II_difference.
  apply wp_bind, (wp_deref _ (LLTreeSet ks)); [done|].
  apply wp_bind, (wp_deref _ o2); [done|].
  apply wp_bind, (wp_family_keys p); [done..|].
  apply wp_alloc. by intros r h' Hf Hs Hr.
Qed.

(** What [OidTMap_difference] does on maps of either backing: it
    returns a new map that has, at every key outside [b], what [a] has
    there, and nothing at the keys of [b]. *)
Lemma OidTMap_difference_run p h a b oa ob :
  h !! a = Some oa → h !! b = Some ob →
  is_map p oa = true → is_coll p ob = true →
  ∃ r h' o,
    OidTMap_difference p a b h = (Ok r, h') ∧
    h !! r = None ∧ h ⊆ h' ∧ h' !! r = Some o ∧ is_map p o = true ∧
    ∀ k, obj_lookup k o
         = if decide (k ∈ obj_keys ob) then None else obj_lookup k oa.
Proof.
  intros Ha Hb Hoa Hob. unfold OidTMap_difference.
  destruct (c_btrees p) eqn:Hp.
  - destruct oa as [|?|items| |]; simpl in Hoa; rewrite ?Hp in Hoa;
      try done.
    pose proof (II_difference_map_wp p h a b items ob Hp Ha Hb Hob) as Hwp.
    apply wp_run in Hwp as (r & h' & Hrun & Hf & Hs & Hr).
    exists r, h', (LLBTree (filter (λ kv, kv.1 ∉ obj_iter ob) items)).
    split_and!; try done.
    + unfold is_map. rewrite Hp. cbn [andb].
      pose proof (fmap_fst_filter (λ k, k ∉ obj_iter ob) items) as Heq.
      cbv beta in Heq. rewrite Heq. by apply ascending_filter.
    + intros k. simpl.
      pose proof (dict_lookup_filter (λ k, k ∉ obj_iter ob) k items) as Heq.
      cbv beta in Heq. rewrite Heq. unfold obj_keys.
      repeat case_decide; try done; rewrite elem_of_list_to_set in *; done.
  - destruct oa as [d1| | | |]; simpl in Hoa; rewrite ?Hp in Hoa;
      try done.
    pose proof (Fallback_OidTMap_difference_wp p h a b d1 ob Ha Hb) as Hwp.
    apply wp_run in Hwp as (r & h' & Hrun & Hf & Hs & d & Hr & Hd).
    exists r, h', (PyDict d). split_and!; try done.
    simpl. by rewrite Hp.
Qed.

(** The same for [OidSet_difference] on sets. *)
Lemma OidSet_difference_run p h a b oa ob :
  h !! a = Some oa → h !! b = Some ob →
  is_set p oa = true → is_coll p ob = true →
  ∃ r h' o,
    OidSet_difference p a b h = (Ok r, h') ∧
    h !! r = None ∧ h ⊆ h' ∧ h' !! r = Some o ∧ is_set p o = true ∧
    obj_keys o = obj_keys oa ∖ obj_keys ob.
Proof.
  intros Ha Hb Hoa Hob. unfold OidSet_difference.
  destruct (c_btrees p) eqn:Hp.
  - destruct oa as [| | |ks|]; simpl in Hoa; rewrite ?Hp in Hoa; try done.
    pose proof (II_difference_set_wp p h a b ks ob Hp Ha Hb Hob) as Hwp.
    apply wp_run in Hwp as (r & h' & Hrun & Hf & Hs & Hr).
    exists r, h', (LLTreeSet (filter (λ k, k ∉ obj_iter ob) ks)).
    split_and!; try done.
    + simpl. rewrite Hp. simpl. by apply ascending_filter.
    + apply set_eq. intros k. unfold obj_keys. simpl.
      rewrite elem_of_difference, !elem_of_list_to_set, list_elem_of_filter.
      naive_solver.
  - destruct oa as [|x| | |]; simpl in Hoa; rewrite ?Hp in Hoa; try done.
    assert (wp (Fallback.OidSet_difference a b) h (λ r h',
      h !! r = None ∧ h ⊆ h' ∧
      h' !! r = Some (PySet (obj_keys (PySet x) ∖ obj_keys ob)))) as Hwp.
    { unfold Fallback.OidSet_difference.
      apply wp_bind, (wp_set_of _ (PySet x)); [done|].
      intros l1 h1 Hf1 Hs1 Hl1.
      apply wp_bind, (wp_set_of _ ob); [heap_lookup|].
      intros l2 h2 Hf2 Hs2 Hl2.
      apply (wp_set_sub _ _ (obj_keys (PySet x)) (obj_keys ob));
        [heap_lookup | done |].
      intros r h' Hf Hs Hr. split_and!; [heap_lookup | heap_sub | done]. }
    apply wp_run in Hwp as (r & h' & Hrun & Hf & Hs & Hr).
    exists r, h', (PySet (obj_keys (PySet x) ∖ obj_keys ob)).
    split_and!; try done.
    + simpl. by rewrite Hp.
    + by rewrite obj_keys_PySet.
Qed.

(** * Properties of the module *)

(** C3: [difference a b] returns a new collection, of the kind of [a],
    whose keys are exactly the keys of [a] that are not in [b]; every
    object of the store, [a] and [b] among them, is left as it was.  When
    [b] has the keys of [a] (as in [difference a a]) the result is empty,
    and when [b] is empty the result equals [a]. *)
Theorem difference_spec p c h a b oa ob :
  h !! a = Some oa → h !! b = Some ob →
  is_kind p c oa = true → is_coll p ob = true →
  ∃ r h' o,
    difference p c a b h = (Ok r, h') ∧
    h !! r = None ∧ h' !! r = Some o ∧ is_kind p c o = true ∧
    (∀ k, k ∈ obj_keys o ↔ k ∈ obj_keys oa ∧ k ∉ obj_keys ob) ∧
    (∀ l o', h !! l = Some o' → h' !! l = Some o') ∧
    h' !! a = Some oa ∧ h' !! b = Some ob ∧
    (obj_keys ob = obj_keys oa → obj_keys o = ∅) ∧
    (obj_keys ob = ∅ → same_content o oa).
Proof.
  intros Ha Hb Hoa Hob.
  assert (∃ r h' o,
    difference p c a b h = (Ok r, h') ∧
    h !! r = None ∧ h ⊆ h' ∧ h' !! r = Some o ∧ is_kind p c o = true ∧
    obj_keys o = obj_keys oa ∖ obj_keys ob ∧
    (obj_keys ob = ∅ → ∀ k, obj_lookup k o = obj_lookup k oa))
    as (r & h' & o & Hrun & Hf & Hs & Hr & Ho & Hkeys & Hvals).
  { destruct c; simpl in *.
    - destruct (OidTMap_difference_run p h a b oa ob)
        as (r & h' & o & Hrun & Hf & Hs & Hr & Ho & Hlk); [done..|].
      exists r, h', o. split_and!; try done.
      + apply set_eq. intros k. rewrite elem_of_difference.
        rewrite <- !(obj_lookup_is_Some p) by done. rewrite Hlk.
        case_decide; [|naive_solver].
        split; [by intros [? ?] | naive_solver].
      + intros Hempty k. rewrite Hlk, Hempty.
        case_decide as Hk; [by apply not_elem_of_empty in Hk | done].
    - destruct (OidSet_difference_run p h a b oa ob)
        as (r & h' & o & Hrun & Hf & Hs & Hr & Ho & Hk); [done..|].
      exists r, h', o. split_and!; try done.
      intros _ k.
      destruct o, oa; simpl in Ho, Hoa; done. }
  exists r, h', o. split_and!; try done.
  - intros k. rewrite Hkeys. apply elem_of_difference.
  - intros l o' Hl. heap_lookup.
  - heap_lookup.
  - heap_lookup.
  - intros Heq. rewrite Hkeys, Heq. apply difference_diag_L.
  - intros Hempty. split; [|by apply Hvals].
    rewrite Hkeys, Hempty. apply difference_empty_L.
Qed.

Lemma difference_spec_witness :
  let h : heap :=
    {[ 1%positive := PyDict [(1, 10); (2, 20); (3, 30)];
       2%positive := PyDict [(2, 0); (3, 0); (4, 0)] ]} in
  h !! 1%positive = Some (PyDict [(1, 10); (2, 20); (3, 30)]) ∧
  h !! 2%positive = Some (PyDict [(2, 0); (3, 0); (4, 0)]) ∧
  ∃ r h' o,
    difference pure_python Maps 1%positive 2%positive h = (Ok r, h') ∧
    h !! r = None ∧ h' !! r = Some o ∧ is_kind pure_python Maps o = true ∧
    (∀ k, k ∈ obj_keys o
          ↔ k ∈ obj_keys (PyDict [(1, 10); (2, 20); (3, 30)])
            ∧ k ∉ obj_keys (PyDict [(2, 0); (3, 0); (4, 0)])) ∧
    (∀ l o', h !! l = Some o' → h' !! l = Some o') ∧
    h' !! 1%positive = Some (PyDict [(1, 10); (2, 20); (3, 30)]) ∧
    h' !! 2%positive = Some (PyDict [(2, 0); (3, 0); (4, 0)]) ∧
    (obj_keys (PyDict [(2, 0); (3, 0); (4, 0)])
     = obj_keys (PyDict [(1, 10); (2, 20); (3, 30)]) → obj_keys o = ∅) ∧
    (obj_keys (PyDict [(2, 0); (3, 0); (4, 0)]) = ∅ →
     same_content o (PyDict [(1, 10); (2, 20); (3, 30)])).
Proof.
  intros h. split; [reflexivity|]. split; [reflexivity|].
  apply (difference_spec pure_python Maps h 1%positive 2%positive);
    reflexivity.
Defined.

(** C10: on maps, the result of [OidTMap_difference a b] is a map that
    has, at every key of [a] that is not a key of [b], the value [a] had
    at that key when the call was made, and that has nothing at any
    other key. *)
Theorem OidTMap_difference_values p h a b oa ob :
  h !! a = Some oa → h !! b = Some ob →
  is_map p oa = true → is_coll p ob = true →
  ∃ r h' o,
    OidTMap_difference p a b h = (Ok r, h') ∧
    h' !! r = Some o ∧ is_map p o = true ∧
    (∀ k, obj_lookup k o
          = if decide (k ∈ obj_keys ob) then None else obj_lookup k oa) ∧
    (∀ k v, obj_lookup k oa = Some v → k ∉ obj_keys ob →
            obj_lookup k o = Some v) ∧
    (∀ k, k ∈ obj_keys o →
          ∃ v, obj_lookup k o = Some v ∧ obj_lookup k oa = Some v).
Proof.
  intros Ha Hb Hoa Hob.
  destruct (OidTMap_difference_run p h a b oa ob)
    as (r & h' & o & Hrun & Hf & Hs & Hr & Ho & Hlk); [done..|].
  exists r, h', o. split_and!; try done.
  - intros k v Hv Hk. rewrite Hlk. by rewrite decide_False.
  - intros k [v Hv]%(obj_lookup_is_Some p); [|done].
    exists v. split; [done|]. rewrite Hlk in Hv. by case_decide.
Qed.

Lemma OidTMap_difference_values_witness :
  let h : heap :=
    {[ 1%positive := LLBTree [(1, 50); (5, 100); (9, 200)];
       2%positive := LLTreeSet [5; 7] ]} in
  let oa := LLBTree [(1, 50); (5, 100); (9, 200)] in
  let ob := LLTreeSet [5; 7] in
  h !! 1%positive = Some oa ∧ h !! 2%positive = Some ob ∧
  is_map cpython3 oa = true ∧ is_coll cpython3 ob = true ∧
  ∃ r h' o,
    OidTMap_difference cpython3 1%positive 2%positive h = (Ok r, h') ∧
    h' !! r = Some o ∧ is_map cpython3 o = true ∧
    (∀ k, obj_lookup k o
          = if decide (k ∈ obj_keys ob) then None else obj_lookup k oa) ∧
    (∀ k v, obj_lookup k oa = Some v → k ∉ obj_keys ob →
            obj_lookup k o = Some v) ∧
    (∀ k, k ∈ obj_keys o →
          ∃ v, obj_lookup k o = Some v ∧ obj_lookup k oa = Some v).
Proof.
  intros h oa ob. do 4 (split; [reflexivity|]).
  apply (OidTMap_difference_values cpython3 h 1%positive 2%positive oa ob);
    reflexivity.
Defined.

(** * Union of a sequence of sets *)

Lemma all_sets_cons p h l seq :
  all_sets p h (l :: seq) = true
  ↔ (∃ o, h !! l = Some o ∧ is_set p o = true) ∧ all_sets p h seq = true.
Proof.
  unfold all_sets. simpl. rewrite andb_true_iff.
  destruct (h !! l) as [o|]; naive_solver.
Qed.

Lemma all_sets_perm p h seq seq' :
  seq ≡ₚ seq' → all_sets p h seq = all_sets p h seq'.
Proof.
  unfold all_sets. induction 1 as [|l s s' _ IH|l1 l2 s|s1 s2 s3 _ IH1 _ IH2];
    simpl; [done | by rewrite IH | | congruence].
  rewrite !andb_assoc. f_equal. apply andb_comm.
Qed.

Lemma union_of_cons h l seq :
  union_of h (l :: seq) = keys_at h l ∪ union_of h seq.
Proof. done. Qed.

Lemma union_of_perm h seq seq' :
  seq ≡ₚ seq' → union_of h seq = union_of h seq'.
Proof.
  induction 1 as [|l s s' _ IH|l1 l2 s|s1 s2 s3 _ IH1 _ IH2];
    [done | | | congruence].
  - by rewrite !union_of_cons, IH.
  - rewrite !union_of_cons. set_solver.
Qed.

Lemma keys_at_weaken h h' l :
  h ⊆ h' → is_Some (h !! l) → keys_at h' l = keys_at h l.
Proof.
  intros Hs [o Hl]. unfold keys_at.
  by rewrite Hl, (lookup_weaken _ _ _ _ Hl Hs).
Qed.

Lemma union_of_weaken p h h' seq :
  h ⊆ h' → all_sets p h seq = true → union_of h' seq = union_of h seq.
Proof.
  intros Hs. induction seq as [|l seq IH]; [done|].
  intros [(o & Hl & _) Hall]%all_sets_cons.
  rewrite !union_of_cons, IH by done.
  by rewrite (keys_at_weaken h h') by eauto.
Qed.

Lemma all_sets_weaken p h h' seq :
  h ⊆ h' → all_sets p h seq = true → all_sets p h' seq = true.
Proof.
  intros Hs. induction seq as [|l seq IH]; [done|].
  intros [(o & Hl & Ho) Hall]%all_sets_cons. apply all_sets_cons.
  split; [|by apply IH]. exists o. split; [heap_lookup | done].
Qed.

Lemma wp_set_union_all p seq : ∀ acc h (Q : gset Z → heap → Prop),
  all_sets p h seq = true →
  Q (acc ∪ union_of h seq) h →
  wp (set_union_all acc seq) h Q.
Proof.
  induction seq as [|l seq IH]; intros acc h Q Hall HQ; simpl.
  - apply wp_ret. unfold union_of in HQ. simpl in HQ.
    by rewrite (right_id_L ∅ (∪)) in HQ.
  - apply all_sets_cons in Hall as [(o & Hl & Ho) Hall].
    apply wp_bind, (wp_py_iter _ o); [done|].
    apply IH; [done|].
    rewrite union_of_cons in HQ. unfold keys_at in HQ. rewrite Hl in HQ.
    by rewrite <- (assoc_L (∪)).
Qed.

Lemma foldl_ts_insert_ascending ks : ∀ acc,
  ascending acc = true →
  ascending (foldl (λ s k, ts_insert k s) acc ks) = true.
Proof.
  induction ks as [|k ks IH]; intros acc Hacc; simpl; [done|].
  by apply IH, ts_insert_ascending.
Qed.

Lemma foldl_ts_insert_keys ks : ∀ acc,
  list_to_set (foldl (λ s k, ts_insert k s) acc ks)
  =@{gset Z} list_to_set acc ∪ list_to_set ks.
Proof.
  induction ks as [|k ks IH]; intros acc; simpl.
  - by rewrite (right_id_L ∅ (∪)).
  - rewrite IH. apply set_eq. intros x.
    rewrite !elem_of_union, !elem_of_list_to_set, ts_insert_elem,
      elem_of_singleton.
    naive_solver.
Qed.

Lemma wp_II_multiunion_all p seq : ∀ acc h (Q : list Z → heap → Prop),
  c_btrees p = true →
  all_sets p h seq = true →
  ascending acc = true →
  (∀ u, ascending u = true →
        list_to_set u = list_to_set acc ∪ union_of h seq →
        Q u h) →
  wp (II_multiunion_all acc seq) h Q.
Proof.
  induction seq as [|l seq IH]; intros acc h Q Hp Hall Hacc HQ; simpl.
  - apply wp_ret, HQ; [done|]. unfold union_of. simpl.
    by rewrite (right_id_L ∅ (∪)).
  - apply all_sets_cons in Hall as [(o & Hl & Ho) Hall].
    apply wp_bind, (wp_deref _ o); [done|].
    apply wp_bind, (wp_family_keys p);
      [done | by unfold is_coll; rewrite Ho, orb_true_r |].
    apply IH; [done.. | by apply foldl_ts_insert_ascending |].
    intros u Hu Hkeys. apply HQ; [done|].
    rewrite Hkeys, foldl_ts_insert_keys, union_of_cons.
    unfold keys_at. rewrite Hl. unfold obj_keys.
    by rewrite <- (assoc_L (∪)).
Qed.

(** What [OidTMap_multiunion] does on a sequence of sets of either
    backing. *)
Lemma OidTMap_multiunion_run p h seq :
  all_sets p h seq = true →
  ∃ r h' o,
    OidTMap_multiunion p seq h = (Ok r, h') ∧
    h !! r = None ∧ h ⊆ h' ∧ h' !! r = Some o ∧ is_set p o = true ∧
    obj_keys o = union_of h seq.
Proof.
  intros Hall. unfold OidTMap_multiunion.
  destruct (c_btrees p) eqn:Hp.
  - assert (wp (Native.OidTMap_multiunion seq) h (λ r h',
      h !! r = None ∧ h ⊆ h' ∧
      ∃ u, h' !! r = Some (LLTreeSet u) ∧ ascending u = true ∧
           list_to_set u = union_of h seq)) as Hwp.
    { unfold Native.OidTMap_multiunion, II_multiunion.
      apply wp_bind, (wp_II_multiunion_all p); [done..|].
      intros u Hu Hkeys. apply wp_alloc. intros r h' Hf Hs Hr.
      split_and!; [done..|]. exists u. split_and!; [done..|].
      by rewrite Hkeys, list_to_set_nil, (left_id_L ∅ (∪)). }
    apply wp_run in Hwp as (r & h' & Hrun & Hf & Hs & u & Hr & Hu & Hkeys).
    exists r, h', (LLTreeSet u). split_and!; try done.
    simpl. by rewrite Hp.
  - assert (wp (Fallback.OidTMap_multiunion seq) h (λ r h',
      h !! r = None ∧ h ⊆ h' ∧
      h' !! r = Some (PySet (union_of h seq)))) as Hwp.
    { unfold Fallback.OidTMap_multiunion, set_new, set_union.
      apply wp_bind, wp_alloc. intros s h1 Hf1 Hs1 Hl1.
      apply wp_bind, (wp_deref_set _ ∅); [done|].
      apply wp_bind, (wp_set_union_all p); [by eapply all_sets_weaken|].
      apply wp_alloc. intros r h' Hf Hs Hr.
      split_and!; [heap_lookup | heap_sub |].
      by rewrite (left_id_L ∅ (∪)), (union_of_weaken p h h1) in Hr. }
    apply wp_run in Hwp as (r & h' & Hrun & Hf & Hs & Hr).
    exists r, h', (PySet (union_of h seq)). split_and!; try done.
    + simpl. by rewrite Hp.
    + apply obj_keys_PySet.
Qed.

Lemma returned_keys_multiunion p h seq :
  all_sets p h seq = true →
  returned_keys (OidTMap_multiunion p seq) h = Some (union_of h seq).
Proof.
  intros Hall.
  destruct (OidTMap_multiunion_run p h seq Hall)
    as (r & h' & o & Hrun & _ & _ & Hr & _ & Hkeys).
  unfold returned_keys. rewrite Hrun, Hr. simpl. by rewrite Hkeys.
Qed.

(** C4: [multiunion] of a sequence of sets returns a new set whose
    elements are those of the union of the sets of the sequence, and
    changes no object of the store; permuting the sequence gives a set
    with the same elements; for the empty sequence the result is empty
    and for a sequence of one set it has the elements of that set. *)
Theorem multiunion_spec p h seq :
  all_sets p h seq = true →
  (∃ r h' o,
     OidTMap_multiunion p seq h = (Ok r, h') ∧
     h !! r = None ∧ h' !! r = Some o ∧ is_set p o = true ∧
     (∀ l o', h !! l = Some o' → h' !! l = Some o') ∧
     obj_keys o = union_of h seq) ∧
  (∀ seq', seq' ≡ₚ seq →
     returned_keys (OidTMap_multiunion p seq') h
     = returned_keys (OidTMap_multiunion p seq) h) ∧
  returned_keys (OidTMap_multiunion p []) h = Some ∅ ∧
  (∀ a, seq = [a] →
     returned_keys (OidTMap_multiunion p seq) h = obj_keys <$> h !! a).
Proof.
  intros Hall. split_and!.
  - destruct (OidTMap_multiunion_run p h seq Hall)
      as (r & h' & o & Hrun & Hf & Hs & Hr & Ho & Hkeys).
    exists r, h', o. split_and!; try done.
    intros l o' Hl. heap_lookup.
  - intros seq' Hperm.
    rewrite !returned_keys_multiunion;
      [|done | by rewrite (all_sets_perm p h seq' seq)].
    by rewrite (union_of_perm h seq' seq).
  - by rewrite returned_keys_multiunion.
  - intros a ->. rewrite returned_keys_multiunion by done.
    apply all_sets_cons in Hall as [(o & Hl & _) _].
    rewrite Hl. simpl. f_equal.
    rewrite union_of_cons. unfold keys_at. rewrite Hl.
    unfold union_of. simpl. by rewrite (right_id_L ∅ (∪)).
Qed.

Lemma multiunion_spec_witness :
  let h : heap :=
    {[ 1%positive := PySet {[1; 2; 3]};
       2%positive := PySet {[2; 3; 4]} ]} in
  let seq := [1%positive; 2%positive] in
  all_sets pure_python h seq = true ∧
  (∃ r h' o,
     OidTMap_multiunion pure_python seq h = (Ok r, h') ∧
     h !! r = None ∧ h' !! r = Some o ∧ is_set pure_python o = true ∧
     (∀ l o', h !! l = Some o' → h' !! l = Some o') ∧
     obj_keys o = union_of h seq) ∧
  (∀ seq', seq' ≡ₚ seq →
     returned_keys (OidTMap_multiunion pure_python seq') h
     = returned_keys (OidTMap_multiunion pure_python seq) h) ∧
  returned_keys (OidTMap_multiunion pure_python []) h = Some ∅ ∧
  (∀ a, seq = [a] →
     returned_keys (OidTMap_multiunion pure_python seq) h
     = obj_keys <$> h !! a).
Proof.
  intros h seq. split; [reflexivity|].
  apply (multiunion_spec pure_python h seq). reflexivity.
Defined.
(** * Greatest key *)

Lemma foldl_max_spec ks : ∀ k,
  foldl Z.max k ks ∈ k :: ks ∧ ∀ x, x ∈ k :: ks → x ≤ foldl Z.max k ks.
Proof.
  induction ks as [|k' ks IH]; intros k; simpl.
  - split; [apply elem_of_cons; by left|].
    intros x ->%list_elem_of_singleton. lia.
  - destruct (IH (Z.max k k')) as [Hin Hle]. split.
    + apply elem_of_cons in Hin as [Heq|Hin].
      * rewrite Heq. destruct (Z.max_spec k k') as [[_ ->]|[_ ->]];
          rewrite !elem_of_cons; naive_solver.
      * rewrite !elem_of_cons. naive_solver.
    + assert (Z.max k k' ≤ foldl Z.max (Z.max k k') ks) as Hm
        by (apply Hle, elem_of_cons; by left).
      intros x [->|[->|Hx]%elem_of_cons]%elem_of_cons; [lia..|].
      apply Hle, elem_of_cons. by right.
Qed.

(** C5: [OidObjectMap_max_key] returns 0 on an empty map and the
    greatest key of the map otherwise, for a map of either backing; it
    raises nothing and leaves the store as it was. *)
Theorem OidObjectMap_max_key_spec p h m o :
  h !! m = Some o → is_map p o = true →
  ∃ z,
    OidObjectMap_max_key p m h = (Ok z, h) ∧
    (obj_iter o = [] → z = 0) ∧
    (obj_iter o ≠ [] → z ∈ obj_iter o ∧ ∀ k, k ∈ obj_iter o → k ≤ z).
Proof.
  intros Hm Ho. unfold OidObjectMap_max_key.
  destruct (c_btrees p) eqn:Hp.
  - destruct o as [| |items| |]; unfold is_map in Ho; rewrite ?Hp in Ho;
      try done.
    unfold Native.OidObjectMap_max_key, py_bool, maxKey, bind, deref, ret.
    rewrite Hm. unfold obj_len, obj_iter.
    destruct (items.*1) as [|k ks] eqn:Hks; simpl.
    { by exists 0. }
    rewrite ?Hm, ?Hks.
    destruct (last (k :: ks)) as [z|] eqn:Hlast;
      [|by apply last_None in Hlast].
    exists z. split_and!; [done..|]. intros _. split.
    + by apply last_Some_elem_of.
    + by apply ascending_last.
  - destruct o as [items| | | |]; unfold is_map in Ho; rewrite ?Hp in Ho;
      try done.
    unfold Fallback.OidObjectMap_max_key, py_bool, iterkeys, py_max, bind,
      deref, ret.
    rewrite Hm. unfold obj_len, obj_iter.
    destruct (items.*1) as [|k ks] eqn:Hks; simpl.
    { by exists 0. }
    rewrite ?Hm, ?Hks. exists (foldl Z.max k ks). split_and!; [done..|].
    intros _. apply foldl_max_spec.
Qed.

Lemma OidObjectMap_max_key_spec_witness :
  let h : heap := {[ 1%positive := PyDict [(5, 100); (1, 50); (9, 200)] ]} in
  let o := PyDict [(5, 100); (1, 50); (9, 200)] in
  h !! 1%positive = Some o ∧ is_map pure_python o = true ∧
  ∃ z,
    OidObjectMap_max_key pure_python 1%positive h = (Ok z, h) ∧
    (obj_iter o = [] → z = 0) ∧
    (obj_iter o ≠ [] → z ∈ obj_iter o ∧ ∀ k, k ∈ obj_iter o → k ≤ z).
Proof.
  intros h o. split; [reflexivity|]. split; [reflexivity|].
  apply (OidObjectMap_max_key_spec pure_python h 1%positive o); reflexivity.
Defined.

(** * Discarding an element *)

Lemma elem_of_obj_keys_iter k o : k ∈ obj_keys o ↔ k ∈ obj_iter o.
Proof. unfold obj_keys. apply elem_of_list_to_set. Qed.

Lemma filter_ne_absent (v : Z) (ks : list Z) :
  v ∉ ks → filter (λ k, k ≠ v) ks = ks.
Proof.
  induction ks as [|k ks IH]; [done|].
  rewrite elem_of_cons. intros Hv. rewrite filter_cons.
  rewrite decide_True by naive_solver. f_equal. apply IH. naive_solver.
Qed.

Lemma Native_OidSet_discard_run h s ks v :
  h !! s = Some (LLTreeSet ks) → family64_fits v = true →
  Native.OidSet_discard s v h
  = (Ok tt, <[s := LLTreeSet (filter (λ k, k ≠ v) ks)]> h).
Proof.
  intros Hs Hv.
  unfold Native.OidSet_discard, try_except, py_remove, bind, deref, mem.
  rewrite Hs, Hv. simpl.
  destruct (bool_decide_reflect (v ∈ ks)) as [Hin|Hin]; [done|].
  simpl. unfold ret. by rewrite filter_ne_absent, insert_id.
Qed.

Lemma Fallback_OidSet_discard_run h s x v :
  h !! s = Some (PySet x) →
  Fallback.OidSet_discard s v h = (Ok tt, <[s := PySet (x ∖ {[v]})]> h).
Proof.
  intros Hs.
  unfold Fallback.OidSet_discard, set_discard, deref_set, bind, deref.
  by rewrite Hs.
Qed.

(** C6, amended: for a value [v] that, on the tree-set backing, is a
    signed 64-bit integer, [OidSet_discard s v] removes [v] from the set
    [s], in place; when [v] is not in [s] it raises nothing and changes
    nothing; a second call with the same [v] leaves the set as the first
    call left it.  This holds for tree sets and for built-in sets; a
    built-in set takes any integer [v]. *)
Theorem OidSet_discard_spec p h s o v :
  h !! s = Some o → is_set p o = true →
  (c_btrees p = true → family64_fits v = true) →
  ∃ o',
    OidSet_discard p s v h = (Ok tt, <[s := o']> h) ∧
    is_set p o' = true ∧
    obj_keys o' = obj_keys o ∖ {[v]} ∧
    (v ∉ obj_keys o → <[s := o']> h = h) ∧
    OidSet_discard p s v (<[s := o']> h) = (Ok tt, <[s := o']> h).
Proof.
  intros Hs Ho Hv. unfold OidSet_discard.
  destruct (c_btrees p) eqn:Hp.
  - specialize (Hv eq_refl).
    destruct o as [| | |ks|]; unfold is_set in Ho; rewrite ?Hp in Ho;
      try done.
    exists (LLTreeSet (filter (λ k, k ≠ v) ks)). split_and!.
    + by apply Native_OidSet_discard_run.
    + unfold is_set. rewrite Hp. by apply ascending_filter.
    + apply set_eq. intros k. unfold obj_keys. simpl.
      rewrite elem_of_difference, !elem_of_list_to_set, list_elem_of_filter,
        elem_of_singleton.
      naive_solver.
    + unfold obj_keys. simpl. rewrite elem_of_list_to_set. intros Hin.
      by rewrite filter_ne_absent, insert_id.
    + rewrite (Native_OidSet_discard_run _ s (filter (λ k, k ≠ v) ks));
        [|apply lookup_insert_eq | done].
      rewrite insert_insert_eq. do 3 f_equal.
      apply filter_ne_absent. rewrite list_elem_of_filter. naive_solver.
  - destruct o as [|x| | |]; unfold is_set in Ho; rewrite ?Hp in Ho;
      try done.
    exists (PySet (x ∖ {[v]})). split_and!.
    + by apply Fallback_OidSet_discard_run.
    + unfold is_set. by rewrite Hp.
    + by rewrite !obj_keys_PySet.
    + rewrite obj_keys_PySet. intros Hin.
      rewrite insert_id; [done|]. rewrite Hs. do 2 f_equal. set_solver.
    + rewrite (Fallback_OidSet_discard_run _ s (x ∖ {[v]}))
        by apply lookup_insert_eq.
      rewrite insert_insert_eq. do 3 f_equal. set_solver.
Qed.

Lemma OidSet_discard_spec_witness :
  let h : heap := {[ 1%positive := LLTreeSet [1; 5; 9] ]} in
  let o := LLTreeSet [1; 5; 9] in
  h !! 1%positive = Some o ∧ is_set cpython3 o = true ∧
  (c_btrees cpython3 = true → family64_fits 5 = true) ∧
  ∃ o',
    OidSet_discard cpython3 1%positive 5 h = (Ok tt, <[1%positive := o']> h) ∧
    is_set cpython3 o' = true ∧
    obj_keys o' = obj_keys o ∖ {[5]} ∧
    (5 ∉ obj_keys o → <[1%positive := o']> h = h) ∧
    OidSet_discard cpython3 1%positive 5 (<[1%positive := o']> h)
    = (Ok tt, <[1%positive := o']> h).
Proof.
  intros h o. split; [reflexivity|]. split; [reflexivity|].
  split; [reflexivity|].
  apply (OidSet_discard_spec cpython3 h 1%positive o 5); reflexivity.
Defined.

(** On the tree-set backing, discarding [2^63], an unsigned 64-bit value
    that the set does not hold, raises [TypeError]. *)
Lemma OidSet_discard_raises_above_maxint :
  (0 ≤ 2 ^ 63 < 2 ^ 64) ∧
  ((2 ^ 63) ∉ obj_keys (LLTreeSet [1; 5; 9])) ∧
  (OidSet_discard cpython3 1%positive (2 ^ 63)
     {[ 1%positive := LLTreeSet [1; 5; 9] ]}
   = (Raise TypeError, {[ 1%positive := LLTreeSet [1; 5; 9] ]})).
Proof.
  split; [lia|]. split; [|reflexivity].
  rewrite elem_of_obj_keys_iter. simpl.
  rewrite !elem_of_cons, elem_of_nil. lia.
Qed.

(** * Order of iteration *)

Lemma order_step_elem x ks op :
  x ∈ order_step ks op
  ↔ match op with
    | SetItem k _ => x = k ∨ x ∈ ks
    | DelItem k => x ≠ k ∧ x ∈ ks
    end.
Proof.
  destruct op as [k v|k]; simpl.
  - unfold mem. destruct (bool_decide_reflect (k ∈ ks)).
    + naive_solver.
    + rewrite elem_of_app, list_elem_of_singleton. naive_solver.
  - by rewrite list_elem_of_filter.
Qed.

Lemma dict_del_absent k (d : list (Z * Z)) : k ∉ d.*1 → dict_del k d = d.
Proof.
  unfold dict_del. induction d as [|[k' v'] d IH]; [done|].
  rewrite fmap_cons, elem_of_cons. intros Hin. rewrite filter_cons.
  simpl. rewrite decide_True by naive_solver.
  f_equal. apply IH. naive_solver.
Qed.

(** One update of a dict: it never raises. *)
Lemma apply_op_dict_run p m op d h :
  h !! m = Some (PyDict d) →
  apply_op p m op h
  = (Ok tt, <[m := PyDict match op with
                          | SetItem k v => dict_set p k v d
                          | DelItem k => dict_del k d
                          end]> h).
Proof.
  intros Hm. destruct op as [k v|k]; simpl.
  - unfold py_setitem, bind, deref. by rewrite Hm.
  - unfold try_except, py_delitem, bind, deref, mem. rewrite Hm.
    destruct (bool_decide_reflect (k ∈ d.*1)) as [Hin|Hin]; [done|].
    simpl. unfold ret. by rewrite dict_del_absent, insert_id.
Qed.

(** One update of a BTree, with a key and a value it takes. *)
Lemma apply_op_btree_run p m op b h :
  h !! m = Some (LLBTree b) → op_fits op = true →
  apply_op p m op h
  = (Ok tt, <[m := LLBTree match op with
                           | SetItem k v => bt_insert k v b
                           | DelItem k => dict_del k b
                           end]> h).
Proof.
  intros Hm Hfit. destruct op as [k v|k]; simpl in *.
  - unfold py_setitem, bind, deref. by rewrite Hm, Hfit.
  - unfold try_except, py_delitem, bind, deref, mem. rewrite Hm, Hfit. simpl.
    destruct (bool_decide_reflect (k ∈ b.*1)) as [Hin|Hin]; [done|].
    simpl. unfold ret. by rewrite dict_del_absent, insert_id.
Qed.

(** A BTree refuses an update that does not fit, and stays as it was. *)
Lemma apply_op_btree_refused p m op b h :
  h !! m = Some (LLBTree b) → op_fits op = false →
  apply_op p m op h = (Raise TypeError, h).
Proof.
  intros Hm Hfit. destruct op as [k v|k]; simpl in *.
  - unfold py_setitem, bind, deref. by rewrite Hm, Hfit.
  - unfold try_except, py_delitem, bind, deref. by rewrite Hm, Hfit.
Qed.

Lemma ops_fit_cons op ops :
  ops_fit (op :: ops) = true ↔ op_fits op = true ∧ ops_fit ops = true.
Proof. unfold ops_fit. simpl. apply andb_true_iff. Qed.

(** Updates of a dict where dicts are ordered by insertion. *)
Lemma apply_ops_dict p m ops : ∀ d h,
  ordered_dicts p = true →
  h !! m = Some (PyDict d) →
  ∃ d', apply_ops p m ops h = (Ok tt, <[m := PyDict d']> h) ∧
        d'.*1 = foldl order_step d.*1 ops.
Proof.
  induction ops as [|op ops IH]; intros d h Hp Hm; simpl.
  - exists d. by rewrite insert_id.
  - unfold bind. rewrite (apply_op_dict_run p m op d h Hm).
    set (d1 := match op with
               | SetItem k v => dict_set p k v d
               | DelItem k => dict_del k d
               end).
    destruct (IH d1 (<[m := PyDict d1]> h)) as (d' & Hrun & Hkeys);
      [done | apply lookup_insert_eq|].
    exists d'. rewrite Hrun, insert_insert_eq. split; [done|].
    rewrite Hkeys. f_equal. unfold d1.
    destruct op as [k v|k]; simpl;
      [by apply dict_set_keys | apply dict_del_keys].
Qed.

(** Updates of a dict on any interpreter: the keys left, each once. *)
Lemma apply_ops_dict_keys p m ops : ∀ d ks h,
  h !! m = Some (PyDict d) →
  NoDup d.*1 →
  (∀ x, x ∈ d.*1 ↔ x ∈ ks) →
  ∃ d', apply_ops p m ops h = (Ok tt, <[m := PyDict d']> h) ∧
        NoDup d'.*1 ∧
        ∀ x, x ∈ d'.*1 ↔ x ∈ foldl order_step ks ops.
Proof.
  induction ops as [|op ops IH]; intros d ks h Hm Hnd Hks; simpl.
  - exists d. by rewrite insert_id.
  - unfold bind. rewrite (apply_op_dict_run p m op d h Hm).
    set (d1 := match op with
               | SetItem k v => dict_set p k v d
               | DelItem k => dict_del k d
               end).
    destruct (IH d1 (order_step ks op) (<[m := PyDict d1]> h))
      as (d' & Hrun & Hnd' & Hks');
      [apply lookup_insert_eq | unfold d1 | unfold d1 |].
    + destruct op as [k v|k].
      * by apply dict_set_NoDup.
      * rewrite dict_del_keys. by apply NoDup_filter.
    + intros x. rewrite order_step_elem. destruct op as [k v|k].
      * by rewrite dict_set_elem, Hks.
      * by rewrite dict_del_keys, list_elem_of_filter, Hks.
    + exists d'. by rewrite Hrun, insert_insert_eq.
Qed.

(** Updates of a BTree that fit. *)
Lemma apply_ops_btree p m ops : ∀ b ks h,
  ops_fit ops = true →
  h !! m = Some (LLBTree b) →
  ascending b.*1 = true →
  (∀ x, x ∈ b.*1 ↔ x ∈ ks) →
  ∃ b', apply_ops p m ops h = (Ok tt, <[m := LLBTree b']> h) ∧
        ascending b'.*1 = true ∧
        ∀ x, x ∈ b'.*1 ↔ x ∈ foldl order_step ks ops.
Proof.
  induction ops as [|op ops IH]; intros b ks h Hfit Hm Hasc Hks; simpl.
  - exists b. by rewrite insert_id.
  - apply ops_fit_cons in Hfit as [Hop Hfit].
    unfold bind. rewrite (apply_op_btree_run p m op b h Hm Hop).
    set (b1 := match op with
               | SetItem k v => bt_insert k v b
               | DelItem k => dict_del k b
               end).
    destruct (IH b1 (order_step ks op) (<[m := LLBTree b1]> h))
      as (b' & Hrun & Hasc' & Hks');
      [done | apply lookup_insert_eq | unfold b1 | unfold b1 |].
    + destruct op as [k v|k].
      * rewrite bt_insert_keys. by apply ts_insert_ascending.
      * rewrite dict_del_keys. by apply ascending_filter.
    + intros x. rewrite order_step_elem. destruct op as [k v|k].
      * rewrite bt_insert_keys, ts_insert_elem, Hks. done.
      * rewrite dict_del_keys, list_elem_of_filter, Hks. done.
    + exists b'. by rewrite Hrun, insert_insert_eq.
Qed.

(** C1, amended: a map of the BTree backing, updated with keys and
    values that are signed 64-bit integers, iterates its keys in
    ascending order whatever the order of the updates, so that keys
    inserted as 5, 1, 9 come out as 1, 5, 9.  A map of the dict backing
    iterates each of its keys once, in the order of the interpreter's
    dict, which is not by key: where dicts are ordered by insertion (as
    on PyPy) it is the order of insertion, here 5, 1, 9. *)
Theorem iteration_order p h ops :
  (c_btrees p = true → ops_fit ops = true) →
  (∃ ks h',
     iterate_after p ops h = (Ok ks, h') ∧
     if c_btrees p
     then ascending ks = true ∧ ∀ k, k ∈ ks ↔ k ∈ insertion_order ops
     else if ordered_dicts p
     then ks = insertion_order ops
     else NoDup ks ∧ ∀ k, k ∈ ks ↔ k ∈ insertion_order ops) ∧
  (iterate_after cpython3 [SetItem 5 100; SetItem 1 50; SetItem 9 200] ∅).1
  = Ok [1; 5; 9] ∧
  (iterate_after pypy3 [SetItem 5 100; SetItem 1 50; SetItem 9 200] ∅).1
  = Ok [5; 1; 9].
Proof.
  intros Hfit. split; [|split; reflexivity].
  unfold iterate_after, OID_TID_MAP_TYPE, bind.
  set (m := fresh (dom h)).
  destruct (c_btrees p).
  - unfold Native.OID_TID_MAP_TYPE, BTree_new, alloc. fold m.
    destruct (apply_ops_btree p m ops [] [] (<[m := LLBTree []]> h))
      as (b' & Hrun & Hasc & Hks);
      [by apply Hfit | apply lookup_insert_eq | done..|].
    rewrite Hrun. unfold py_iter, bind, deref. rewrite lookup_insert_eq.
    eexists _, _. split; [done|]. done.
  - unfold Fallback.OID_TID_MAP_TYPE, dict_new, alloc. fold m.
    destruct (ordered_dicts p) eqn:Hord.
    + destruct (apply_ops_dict p m ops [] (<[m := PyDict []]> h))
        as (d' & Hrun & Hks); [done | apply lookup_insert_eq|].
      rewrite Hrun. unfold py_iter, bind, deref. rewrite lookup_insert_eq.
      eexists _, _. split; [done|]. done.
    + destruct (apply_ops_dict_keys p m ops [] [] (<[m := PyDict []]> h))
        as (d' & Hrun & Hnd & Hks);
        [apply lookup_insert_eq | apply NoDup_nil_2 | done |].
      rewrite Hrun. unfold py_iter, bind, deref. rewrite lookup_insert_eq.
      eexists _, _. split; [done|]. done.
Qed.

Lemma iteration_order_witness :
  let ops := [SetItem 5 100; SetItem 1 50; SetItem 9 200] in
  (c_btrees cpython3 = true → ops_fit ops = true) ∧
  (∃ ks h',
     iterate_after cpython3 ops ∅ = (Ok ks, h') ∧
     if c_btrees cpython3
     then ascending ks = true ∧ ∀ k, k ∈ ks ↔ k ∈ insertion_order ops
     else if ordered_dicts cpython3
     then ks = insertion_order ops
     else NoDup ks ∧ ∀ k, k ∈ ks ↔ k ∈ insertion_order ops) ∧
  (iterate_after cpython3 [SetItem 5 100; SetItem 1 50; SetItem 9 200] ∅).1
  = Ok [1; 5; 9] ∧
  (iterate_after pypy3 [SetItem 5 100; SetItem 1 50; SetItem 9 200] ∅).1
  = Ok [5; 1; 9].
Proof.
  intros ops. split; [reflexivity|].
  apply (iteration_order cpython3 ∅ ops). reflexivity.
Defined.

(** On PyPy, where BTrees has no C implementation and the map is a dict
    ordered by insertion, keys inserted as 5, 1, 9 are iterated as
    5, 1, 9, which is not ascending. *)
Lemma iteration_not_ascending_on_dict :
  c_btrees pypy3 = false
  ∧ (iterate_after pypy3 [SetItem 5 100; SetItem 1 50; SetItem 9 200] ∅).1
    = Ok [5; 1; 9]
  ∧ ascending [5; 1; 9] = false
  ∧ (iterate_after pypy3 [SetItem 5 100; SetItem 1 50; SetItem 9 200] ∅).1
    ≠ Ok [1; 5; 9].
Proof. split_and!; [reflexivity.. | discriminate]. Qed.

(** * The list type and the probe for 64-bit arrays *)

Lemma probe_64bit_array_run p h :
  ∃ h',
    _64bit_array p h
    = (Ok (if has_long_long p then Some "Q"
           else if 8 <=? sizeof_long p then Some "L" else None), h').
Proof.
  unfold _64bit_array, try_except, array_array, typecode_itemsize,
    array_itemsize, bind, alloc, raise, deref, ret.
  simpl. destruct (has_long_long p); simpl; [by eexists|].
  rewrite lookup_insert_eq. by destruct (8 <=? sizeof_long p); eexists.
Qed.

(** C7: [OidList] is the array type exactly when the probe found a
    64-bit unsigned type code and the interpreter is not PyPy; it is
    [list] in every other case, that is when no type code was found or
    the interpreter is PyPy. *)
Theorem OidList_selection p h :
  ∃ a h',
    _64bit_array p h = (Ok a, h') ∧
    OidList p h = (Ok (select_OidList p a), h') ∧
    (∀ code, select_OidList p a = ArrayOf code
             ↔ a = Some code ∧ PYPY p = false) ∧
    (select_OidList p a = PyList ↔ a = None ∨ PYPY p = true).
Proof.
  destruct (probe_64bit_array_run p h) as [h' Hrun].
  eexists _, h'. split; [done|]. split.
  { unfold OidList, bind. by rewrite Hrun. }
  unfold select_OidList.
  destruct (if has_long_long p then Some "Q"
            else if 8 <=? sizeof_long p then Some "L" else None)
    as [code|]; destruct (PYPY p); simpl; split;
    try (intros code'); naive_solver.
Qed.

(** C8: the probe raises nothing, whatever the interpreter.  It asks
    for type code ['Q'] first; when that construction raises
    [ValueError] it asks for ['L'], which it keeps only when the item
    size is 8 bytes or more; when neither gives a type code the result
    is [None] and [OidList] is [list]. *)
Theorem probe_64bit_array_never_raises p h :
  ∃ h',
    _64bit_array p h
    = (Ok (if has_long_long p then Some "Q"
           else if 8 <=? sizeof_long p then Some "L" else None), h') ∧
    (array_array p "Q" [1] h).1
    = (if has_long_long p then Ok (fresh (dom h)) else Raise ValueError) ∧
    (OidList p h).1
    = Ok (if has_long_long p then select_OidList p (Some "Q")
          else if 8 <=? sizeof_long p then select_OidList p (Some "L")
          else PyList).
Proof.
  destruct (probe_64bit_array_run p h) as [h' Hrun].
  exists h'. split_and!; [done | |].
  - unfold array_array, typecode_itemsize. simpl.
    by destruct (has_long_long p).
  - unfold OidList, bind. rewrite Hrun. simpl.
    by destruct (has_long_long p), (8 <=? sizeof_long p).
Qed.

(** * The greatest TID *)

(** C9, amended: [MAX_TID] is the largest signed 64-bit integer,
    [2^63 - 1], and every integer the 64-bit BTree family holds is less
    than or equal to it. *)
Theorem MAX_TID_value :
  MAX_TID = 2 ^ 63 - 1 ∧ ∀ t, family64_fits t = true → t ≤ MAX_TID.
Proof.
  split; [reflexivity|].
  intros t [_ Hle%Z.leb_le]%andb_true_iff. exact Hle.
Qed.

(** [MAX_TID] is not [2^64 - 1]: the unsigned 64-bit value [2^63] is
    above it. *)
Lemma MAX_TID_below_unsigned_max :
  MAX_TID ≠ 2 ^ 64 - 1 ∧ (0 ≤ 2 ^ 63 < 2 ^ 64 ∧ ¬ 2 ^ 63 ≤ MAX_TID).
Proof. unfold MAX_TID, family64_maxint. lia. Qed.

(** * Worked examples *)

Example difference_of_tree_sets :
  returned_keys (OidSet_difference cpython3 1%positive 2%positive)
    {[ 1%positive := LLTreeSet [1; 2; 3];
       2%positive := LLTreeSet [2; 3; 4] ]}
  = Some {[1]}.
Proof. vm_compute. reflexivity. Qed.

Example difference_of_sets :
  returned_keys (OidSet_difference pure_python 1%positive 2%positive)
    {[ 1%positive := PySet {[1; 2; 3]};
       2%positive := PySet {[2; 3; 4]} ]}
  = Some {[1]}.
Proof. vm_compute. reflexivity. Qed.

Example difference_with_itself :
  returned_keys (OidTMap_difference pure_python 1%positive 1%positive)
    {[ 1%positive := PyDict [(5, 100); (1, 50); (9, 200)] ]}
  = Some ∅.
Proof. vm_compute. reflexivity. Qed.

Example multiunion_of_tree_sets :
  returned_keys (OidTMap_multiunion cpython3 [1%positive; 2%positive])
    {[ 1%positive := LLTreeSet [1; 2; 3];
       2%positive := LLTreeSet [2; 3; 4] ]}
  = Some {[1; 2; 3; 4]}.
Proof. vm_compute. reflexivity. Qed.

Example multiunion_of_sets :
  returned_keys (OidTMap_multiunion pure_python [2%positive; 1%positive])
    {[ 1%positive := PySet {[1; 2; 3]};
       2%positive := PySet {[2; 3; 4]} ]}
  = Some {[1; 2; 3; 4]}.
Proof. vm_compute. reflexivity. Qed.

Example max_key_of_btree :
  (OidObjectMap_max_key cpython3 1%positive
     {[ 1%positive := LLBTree [(1, 50); (5, 100); (9, 200)] ]}).1
  = Ok 9.
Proof. reflexivity. Qed.

Example max_key_of_empty_dict :
  (OidObjectMap_max_key pure_python 1%positive {[ 1%positive := PyDict [] ]}).1
  = Ok 0.
Proof. reflexivity. Qed.

Example discard_present :
  (let! s := OID_SET_TYPE pure_python in
   store s (PySet {[1; 5; 9]}) ;;
   OidSet_discard pure_python s 5 ;;
   OidSet_discard pure_python s 5 ;;
   OidSet_discard pure_python s 7) ∅
  = (Ok tt, {[ 1%positive := PySet {[1; 9]} ]}).
Proof. vm_compute. reflexivity. Qed.

Example OidList_on_cpython3 : (OidList cpython3 ∅).1 = Ok (ArrayOf "Q").
Proof. reflexivity. Qed.

Example OidList_on_cpython2_64bit :
  (OidList cpython2_64bit ∅).1 = Ok (ArrayOf "L").
Proof. reflexivity. Qed.

Example OidList_on_cpython2_32bit : (OidList cpython2_32bit ∅).1 = Ok PyList.
Proof. reflexivity. Qed.

Example OidList_on_pypy : (OidList pypy3 ∅).1 = Ok PyList.
Proof. reflexivity. Qed.
(** * Further properties *)

Lemma wp_mono_post {A} (m : M A) h (Q Q' : A → heap → Prop) :
  wp m h Q → (∀ a h', Q a h' → Q' a h') → wp m h Q'.
Proof. unfold wp. destruct (m h) as [[a|e] h']; naive_solver. Qed.

(** ** The fallback functions on arbitrary collections *)

Lemma obj_keys_of_iter o : list_to_set (obj_iter o) = obj_keys o.
Proof. done. Qed.

Lemma Fallback_OidSet_difference_wp h a b oa ob :
  h !! a = Some oa → h !! b = Some ob →
  wp (Fallback.OidSet_difference a b) h (λ r h',
    h !! r = None ∧ h ⊆ h' ∧
    h' !! r = Some (PySet (obj_keys oa ∖ obj_keys ob))).
Proof.
  intros Ha Hb. unfold Fallback.OidSet_difference.
  apply wp_bind, (wp_set_of _ oa); [done|].
  intros l1 h1 Hf1 Hs1 Hl1.
  apply wp_bind, (wp_set_of _ ob); [heap_lookup|].
  intros l2 h2 Hf2 Hs2 Hl2.
  apply (wp_set_sub _ _ (obj_keys oa) (obj_keys ob)); [heap_lookup | done |].
  intros r h' Hf Hs Hr. split_and!; [heap_lookup | heap_sub | done].
Qed.

Lemma Fallback_OidTMap_intersection_wp h a b oa ob :
  h !! a = Some oa → h !! b = Some ob →
  wp (Fallback.OidTMap_intersection a b) h (λ r h',
    h !! r = None ∧ h ⊆ h' ∧
    h' !! r = Some (PySet (obj_keys oa ∩ obj_keys ob))).
Proof.
  intros Ha Hb. unfold Fallback.OidTMap_intersection, set_intersection.
  apply wp_bind, (wp_set_of _ oa); [done|].
  intros l1 h1 Hf1 Hs1 Hl1.
  apply wp_bind, (wp_set_of _ ob); [heap_lookup|].
  intros l2 h2 Hf2 Hs2 Hl2.
  apply wp_bind, (wp_deref_set _ (obj_keys oa)); [heap_lookup|].
  apply wp_bind, (wp_py_iter _ (PySet (obj_keys ob))); [done|].
  apply wp_alloc. intros r h' Hf Hs Hr.
  split_and!; [heap_lookup | heap_sub |].
  by rewrite obj_keys_of_iter, obj_keys_PySet in Hr.
Qed.

(** X1: in the fallback, [OidTMap_intersection] returns a new built-in
    set, also when its arguments are dicts (no value is kept); its
    elements are the keys present in both arguments, and every object of
    the store is left as it was. *)
Theorem Fallback_OidTMap_intersection_spec h a b oa ob :
  h !! a = Some oa → h !! b = Some ob →
  ∃ r h' x,
    Fallback.OidTMap_intersection a b h = (Ok r, h') ∧
    h !! r = None ∧ h' !! r = Some (PySet x) ∧
    (∀ k, k ∈ x ↔ k ∈ obj_keys oa ∧ k ∈ obj_keys ob) ∧
    (∀ l o, h !! l = Some o → h' !! l = Some o).
Proof.
  intros Ha Hb.
  pose proof (Fallback_OidTMap_intersection_wp h a b oa ob Ha Hb) as Hwp.
  apply wp_run in Hwp as (r & h' & Hrun & Hf & Hs & Hr).
  exists r, h', (obj_keys oa ∩ obj_keys ob). split_and!; try done.
  - intros k. apply elem_of_intersection.
  - intros l o Hl. heap_lookup.
Qed.

Lemma Fallback_OidTMap_intersection_spec_witness :
  let h : heap :=
    {[ 1%positive := PyDict [(1, 10); (2, 20); (3, 30)];
       2%positive := PySet {[2; 3; 4]} ]} in
  let oa := PyDict [(1, 10); (2, 20); (3, 30)] in
  let ob := PySet {[2; 3; 4]} in
  h !! 1%positive = Some oa ∧ h !! 2%positive = Some ob ∧
  ∃ r h' x,
    Fallback.OidTMap_intersection 1%positive 2%positive h = (Ok r, h') ∧
    h !! r = None ∧ h' !! r = Some (PySet x) ∧
    (∀ k, k ∈ x ↔ k ∈ obj_keys oa ∧ k ∈ obj_keys ob) ∧
    (∀ l o, h !! l = Some o → h' !! l = Some o).
Proof.
  intros h oa ob. split; [reflexivity|]. split; [reflexivity|].
  apply (Fallback_OidTMap_intersection_spec h 1%positive 2%positive oa ob);
    reflexivity.
Defined.

(** X2: in the fallback, the result of [OidTMap_intersection] has the
    same elements whichever way round the arguments are given, and it is
    empty when one of the arguments is empty. *)
Theorem Fallback_OidTMap_intersection_comm h a b oa ob :
  h !! a = Some oa → h !! b = Some ob →
  returned_keys (Fallback.OidTMap_intersection a b) h
  = returned_keys (Fallback.OidTMap_intersection b a) h ∧
  (obj_keys oa = ∅ ∨ obj_keys ob = ∅ →
   returned_keys (Fallback.OidTMap_intersection a b) h = Some ∅).
Proof.
  intros Ha Hb.
  assert (∀ a b oa ob, h !! a = Some oa → h !! b = Some ob →
    returned_keys (Fallback.OidTMap_intersection a b) h
    = Some (obj_keys oa ∩ obj_keys ob)) as Hkeys.
  { clear. intros a b oa ob Ha Hb.
    pose proof (Fallback_OidTMap_intersection_wp h a b oa ob Ha Hb) as Hwp.
    apply wp_run in Hwp as (r & h' & Hrun & Hf & Hs & Hr).
    unfold returned_keys. rewrite Hrun, Hr. simpl.
    by rewrite obj_keys_PySet. }
  rewrite (Hkeys a b oa ob), (Hkeys b a ob oa) by done. split.
  - f_equal. set_solver.
  - intros [Hempty|Hempty]; rewrite Hempty; f_equal; set_solver.
Qed.

Lemma Fallback_OidTMap_intersection_comm_witness :
  let h : heap :=
    {[ 1%positive := PySet {[1; 2; 3]};
       2%positive := PySet {[2; 3; 4]} ]} in
  h !! 1%positive = Some (PySet {[1; 2; 3]}) ∧
  h !! 2%positive = Some (PySet {[2; 3; 4]}) ∧
  returned_keys (Fallback.OidTMap_intersection 1%positive 2%positive) h
  = returned_keys (Fallback.OidTMap_intersection 2%positive 1%positive) h ∧
  (obj_keys (PySet {[1; 2; 3]}) = ∅ ∨ obj_keys (PySet {[2; 3; 4]}) = ∅ →
   returned_keys (Fallback.OidTMap_intersection 1%positive 2%positive) h
   = Some ∅).
Proof.
  intros h. split; [reflexivity|]. split; [reflexivity|].
  apply (Fallback_OidTMap_intersection_comm h 1%positive 2%positive);
    reflexivity.
Defined.

(** X3: in the fallback, [OidSet_difference] takes any two collections,
    maps included: it returns a new built-in set of the keys of the first
    that are not keys of the second, and changes no object of the
    store. *)
Theorem Fallback_OidSet_difference_any h a b oa ob :
  h !! a = Some oa → h !! b = Some ob →
  ∃ r h' x,
    Fallback.OidSet_difference a b h = (Ok r, h') ∧
    h !! r = None ∧ h' !! r = Some (PySet x) ∧
    (∀ k, k ∈ x ↔ k ∈ obj_keys oa ∧ k ∉ obj_keys ob) ∧
    (∀ l o, h !! l = Some o → h' !! l = Some o).
Proof.
  intros Ha Hb.
  pose proof (Fallback_OidSet_difference_wp h a b oa ob Ha Hb) as Hwp.
  apply wp_run in Hwp as (r & h' & Hrun & Hf & Hs & Hr).
  exists r, h', (obj_keys oa ∖ obj_keys ob). split_and!; try done.
  - intros k. apply elem_of_difference.
  - intros l o Hl. heap_lookup.
Qed.

Lemma Fallback_OidSet_difference_any_witness :
  let h : heap :=
    {[ 1%positive := PyDict [(5, 100); (1, 50); (9, 200)];
       2%positive := LLTreeSet [1; 2] ]} in
  let oa := PyDict [(5, 100); (1, 50); (9, 200)] in
  let ob := LLTreeSet [1; 2] in
  h !! 1%positive = Some oa ∧ h !! 2%positive = Some ob ∧
  ∃ r h' x,
    Fallback.OidSet_difference 1%positive 2%positive h = (Ok r, h') ∧
    h !! r = None ∧ h' !! r = Some (PySet x) ∧
    (∀ k, k ∈ x ↔ k ∈ obj_keys oa ∧ k ∉ obj_keys ob) ∧
    (∀ l o, h !! l = Some o → h' !! l = Some o).
Proof.
  intros h oa ob. split; [reflexivity|]. split; [reflexivity|].
  apply (Fallback_OidSet_difference_any h 1%positive 2%positive oa ob);
    reflexivity.
Defined.

(** X4: without the C implementation, [OidTMap_difference] refuses a
    built-in set that is not empty as its first argument: [dict(c1)]
    raises [TypeError], and the store is left as it was. *)
Theorem OidTMap_difference_of_set_raises p h a b x :
  c_btrees p = false →
  h !! a = Some (PySet x) → x ≠ ∅ →
  OidTMap_difference p a b h = (Raise TypeError, h).
Proof.
  intros Hp Ha Hne. unfold OidTMap_difference. rewrite Hp.
  assert (dict_of p a h = (Raise TypeError, h)) as Hdict.
  { unfold dict_of, bind, deref. rewrite Ha. unfold obj_len. simpl.
    destruct (elements x) as [|k ks] eqn:Hx; [|done].
    by apply elements_empty_inv, leibniz_equiv in Hx. }
  unfold Fallback.OidTMap_difference, bind. by rewrite Hdict.
Qed.

Lemma OidTMap_difference_of_set_raises_witness :
  let h : heap := {[ 1%positive := PySet {[1; 2; 3]} ]} in
  c_btrees pure_python = false ∧
  h !! 1%positive = Some (PySet {[1; 2; 3]}) ∧
  ({[1; 2; 3]} : gset Z) ≠ ∅ ∧
  OidTMap_difference pure_python 1%positive 1%positive h
  = (Raise TypeError, h).
Proof.
  intros h. split; [reflexivity|]. split; [reflexivity|].
  assert (({[1; 2; 3]} : gset Z) ≠ ∅) as Hne by (vm_compute; discriminate).
  split; [exact Hne|].
  apply (OidTMap_difference_of_set_raises pure_python h 1%positive
           1%positive {[1; 2; 3]}); [reflexivity.. | exact Hne].
Defined.

(** ** Operations combined *)

Lemma elem_of_obj_keys k o : k ∈ obj_keys o ↔ k ∈ obj_iter o.
Proof. unfold obj_keys. apply elem_of_list_to_set. Qed.

(** What [OidSet_discard] does on a set of either backing, for a value
    that a tree set takes. *)
Lemma OidSet_discard_run p h s o v :
  h !! s = Some o → is_set p o = true →
  (c_btrees p = true → family64_fits v = true) →
  ∃ o',
    OidSet_discard p s v h = (Ok tt, <[s := o']> h) ∧
    is_set p o' = true ∧
    obj_keys o' = obj_keys o ∖ {[v]}.
Proof.
  intros Hs Ho Hv. unfold OidSet_discard.
  destruct (c_btrees p) eqn:Hp.
  - specialize (Hv eq_refl).
    destruct o as [| | |ks|]; unfold is_set in Ho; rewrite ?Hp in Ho;
      try done.
    exists (LLTreeSet (filter (λ k, k ≠ v) ks)). split_and!.
    + by apply Native_OidSet_discard_run.
    + unfold is_set. rewrite Hp. by apply ascending_filter.
    + apply set_eq. intros k.
      rewrite elem_of_difference, !elem_of_obj_keys. simpl.
      rewrite list_elem_of_filter, elem_of_singleton. naive_solver.
  - destruct o as [|x| | |]; unfold is_set in Ho; rewrite ?Hp in Ho;
      try done.
    exists (PySet (x ∖ {[v]})). split_and!.
    + by apply Fallback_OidSet_discard_run.
    + unfold is_set. by rewrite Hp.
    + by rewrite !obj_keys_PySet.
Qed.

(** X5: the set that [OidSet_difference] returns shares nothing with its
    arguments: discarding an element from it (on the tree-set backing a
    signed 64-bit integer, which is what a tree set takes) removes the
    element from the result only, and the arguments, like every other
    object of the store, stay as they were. *)
Theorem difference_then_discard_spec p h a b oa ob v :
  h !! a = Some oa → h !! b = Some ob →
  is_set p oa = true → is_coll p ob = true →
  (c_btrees p = true → family64_fits v = true) →
  ∃ r h' o,
    difference_then_discard p a b v h = (Ok r, h') ∧
    h !! r = None ∧ h' !! r = Some o ∧
    obj_keys o = (obj_keys oa ∖ obj_keys ob) ∖ {[v]} ∧
    (∀ l o', h !! l = Some o' → h' !! l = Some o').
Proof.
  intros Ha Hb Hoa Hob Hv.
  destruct (OidSet_difference_run p h a b oa ob)
    as (r & h1 & o1 & Hrun & Hf & Hs & Hr & Ho1 & Hkeys); [done..|].
  destruct (OidSet_discard_run p h1 r o1 v Hr Ho1 Hv)
    as (o' & Hrun' & Ho' & Hkeys').
  exists r, (<[r := o']> h1), o'.
  unfold difference_then_discard, bind. rewrite Hrun, Hrun'.
  split_and!; [done | done | apply lookup_insert_eq | | ].
  - by rewrite Hkeys', Hkeys.
  - intros l o Hl.
    assert (l ≠ r) by congruence.
    rewrite lookup_insert_ne by done. heap_lookup.
Qed.

Lemma difference_then_discard_spec_witness :
  let h : heap :=
    {[ 1%positive := LLTreeSet [1; 5; 9];
       2%positive := LLTreeSet [5] ]} in
  let oa := LLTreeSet [1; 5; 9] in
  let ob := LLTreeSet [5] in
  h !! 1%positive = Some oa ∧ h !! 2%positive = Some ob ∧
  is_set cpython3 oa = true ∧ is_coll cpython3 ob = true ∧
  (c_btrees cpython3 = true → family64_fits 9 = true) ∧
  ∃ r h' o,
    difference_then_discard cpython3 1%positive 2%positive 9 h
    = (Ok r, h') ∧
    h !! r = None ∧ h' !! r = Some o ∧
    obj_keys o = (obj_keys oa ∖ obj_keys ob) ∖ {[9]} ∧
    (∀ l o', h !! l = Some o' → h' !! l = Some o').
Proof.
  intros h oa ob. split_and!; [reflexivity..|].
  apply (difference_then_discard_spec cpython3 h 1%positive 2%positive
           oa ob 9); reflexivity.
Defined.

(** What [OidObjectMap_max_key] does on a map of either backing. *)
Lemma OidObjectMap_max_key_run p h m o :
  h !! m = Some o → is_map p o = true →
  ∃ z,
    OidObjectMap_max_key p m h = (Ok z, h) ∧
    (obj_iter o = [] → z = 0) ∧
    (obj_iter o ≠ [] → z ∈ obj_iter o ∧ ∀ k, k ∈ obj_iter o → k ≤ z).
Proof.
  intros Hm Ho. unfold OidObjectMap_max_key.
  destruct (c_btrees p) eqn:Hp.
  - destruct o as [| |items| |]; unfold is_map in Ho; rewrite ?Hp in Ho;
      try done.
    unfold Native.OidObjectMap_max_key, py_bool, maxKey, bind, deref, ret.
    rewrite Hm. unfold obj_len, obj_iter.
    destruct (items.*1) as [|k ks] eqn:Hks; simpl; [by exists 0|].
    rewrite ?Hm, ?Hks.
    destruct (last (k :: ks)) as [z|] eqn:Hlast;
      [|by apply last_None in Hlast].
    exists z. split_and!; [done..|]. intros _. split.
    + by apply last_Some_elem_of.
    + by apply ascending_last.
  - destruct o as [items| | | |]; unfold is_map in Ho; rewrite ?Hp in Ho;
      try done.
    unfold Fallback.OidObjectMap_max_key, py_bool, iterkeys, py_max, bind,
      deref, ret.
    rewrite Hm. unfold obj_len, obj_iter.
    destruct (items.*1) as [|k ks] eqn:Hks; simpl; [by exists 0|].
    rewrite ?Hm, ?Hks. exists (foldl Z.max k ks). split_and!; [done..|].
    intros _. apply foldl_max_spec.
Qed.

(** X6: for a map whose keys are not negative, the greatest key (or 0)
    of [OidTMap_difference a b] is at most the greatest key (or 0) of
    [a], and it is not negative. *)
Theorem max_key_of_difference_le p h a b oa ob :
  h !! a = Some oa → h !! b = Some ob →
  is_map p oa = true → is_coll p ob = true →
  (∀ k, k ∈ obj_keys oa → 0 ≤ k) →
  ∃ z z' h',
    OidObjectMap_max_key p a h = (Ok z, h) ∧
    max_key_of_difference p a b h = (Ok z', h') ∧
    0 ≤ z' ≤ z.
Proof.
  intros Ha Hb Hoa Hob Hpos.
  destruct (OidObjectMap_max_key_run p h a oa Ha Hoa)
    as (z & Hz & Hz0 & Hzmax).
  destruct (OidTMap_difference_run p h a b oa ob)
    as (r & h' & o & Hrun & Hf & Hs & Hr & Ho & Hlk); [done..|].
  destruct (OidObjectMap_max_key_run p h' r o Hr Ho)
    as (z' & Hz' & Hz'0 & Hz'max).
  exists z, z', h'. split; [done|]. split.
  { unfold max_key_of_difference, bind. by rewrite Hrun. }
  assert (∀ k, k ∈ obj_iter o → k ∈ obj_iter oa) as Hsub.
  { intros k. rewrite <- !elem_of_obj_keys.
    rewrite <- !(obj_lookup_is_Some p) by done. rewrite Hlk.
    case_decide; [by intros [? ?] | done]. }
  destruct (obj_iter o) as [|k0 ks0] eqn:Hiter.
  - rewrite Hz'0 by done.
    destruct (obj_iter oa) as [|k1 ks1] eqn:Hiter_a.
    + rewrite Hz0 by done. lia.
    + destruct Hzmax as [Hin _]; [done|].
      rewrite <- Hiter_a, <- elem_of_obj_keys in Hin.
      specialize (Hpos z Hin). lia.
  - destruct Hz'max as [Hin' _]; [done|].
    assert (z' ∈ obj_iter oa) as Hin by (by apply Hsub).
    destruct Hzmax as [_ Hmax]; [by intros Heq; rewrite Heq in Hin;
                                 apply elem_of_nil in Hin|].
    split; [|by apply Hmax].
    apply Hpos. by apply elem_of_obj_keys.
Qed.

Lemma max_key_of_difference_le_witness :
  let h : heap :=
    {[ 1%positive := PyDict [(5, 100); (1, 50); (9, 200)];
       2%positive := PyDict [(9, 0)] ]} in
  let oa := PyDict [(5, 100); (1, 50); (9, 200)] in
  let ob := PyDict [(9, 0)] in
  h !! 1%positive = Some oa ∧ h !! 2%positive = Some ob ∧
  is_map pure_python oa = true ∧ is_coll pure_python ob = true ∧
  (∀ k, k ∈ obj_keys oa → 0 ≤ k) ∧
  ∃ z z' h',
    OidObjectMap_max_key pure_python 1%positive h = (Ok z, h) ∧
    max_key_of_difference pure_python 1%positive 2%positive h
    = (Ok z', h') ∧
    0 ≤ z' ≤ z.
Proof.
  intros h oa ob.
  assert (∀ k, k ∈ obj_keys oa → 0 ≤ k) as Hpos.
  { intros k Hk. apply elem_of_obj_keys in Hk. simpl in Hk.
    repeat (apply elem_of_cons in Hk as [->|Hk]; [lia|]).
    by apply elem_of_nil in Hk. }
  split_and!; [reflexivity.. | exact Hpos |].
  apply (max_key_of_difference_le pure_python h 1%positive 2%positive
           oa ob); [reflexivity.. | exact Hpos].
Defined.

(** X7: in the fallback, the union (by [OidTMap_multiunion]) of
    [OidSet_difference a b] and [OidTMap_intersection a b] is a new set
    with exactly the keys of [a]; the store is otherwise unchanged. *)
Theorem union_of_parts_spec h a b oa ob :
  h !! a = Some oa → h !! b = Some ob →
  ∃ r h',
    union_of_parts a b h = (Ok r, h') ∧
    h !! r = None ∧ h' !! r = Some (PySet (obj_keys oa)) ∧
    (∀ l o, h !! l = Some o → h' !! l = Some o).
Proof.
  intros Ha Hb.
  assert (wp (union_of_parts a b) h (λ r h',
    h !! r = None ∧ h ⊆ h' ∧ h' !! r = Some (PySet (obj_keys oa)))) as Hwp.
  { unfold union_of_parts.
    apply wp_bind.
    eapply wp_mono_post;
      [by apply (Fallback_OidSet_difference_wp h a b oa ob)|].
    intros d h1 (Hfd & Hs1 & Hd).
    apply wp_bind.
    eapply wp_mono_post;
      [apply (Fallback_OidTMap_intersection_wp h1 a b oa ob); heap_lookup|].
    intros i h2 (Hfi & Hs2 & Hi).
    unfold Fallback.OidTMap_multiunion, set_new, set_union.
    apply wp_bind, wp_alloc. intros s h3 Hf3 Hs3 Hl3.
    apply wp_bind, (wp_deref_set _ ∅); [done|].
    assert (h3 !! d = Some (PySet (obj_keys oa ∖ obj_keys ob))) as Hd3
      by heap_lookup.
    assert (h3 !! i = Some (PySet (obj_keys oa ∩ obj_keys ob))) as Hi3
      by heap_lookup.
    apply wp_bind, (wp_set_union_all pure_python).
    { apply all_sets_cons. split; [by eexists|].
      apply all_sets_cons. split; [by eexists|]. done. }
    apply wp_alloc. intros r h' Hf Hs Hr.
    split_and!; [heap_lookup | heap_sub |].
    rewrite Hr. do 2 f_equal.
    rewrite !union_of_cons. unfold keys_at. rewrite Hd3, Hi3.
    rewrite !obj_keys_PySet. unfold union_of. simpl.
    apply set_eq. intros k.
    destruct (decide (k ∈ obj_keys ob)); set_solver. }
  apply wp_run in Hwp as (r & h' & Hrun & Hf & Hs & Hr).
  exists r, h'. split_and!; try done.
  intros l o Hl. heap_lookup.
Qed.

Lemma union_of_parts_spec_witness :
  let h : heap :=
    {[ 1%positive := PySet {[1; 2; 3]};
       2%positive := PySet {[2; 3; 4]} ]} in
  h !! 1%positive = Some (PySet {[1; 2; 3]}) ∧
  h !! 2%positive = Some (PySet {[2; 3; 4]}) ∧
  ∃ r h',
    union_of_parts 1%positive 2%positive h = (Ok r, h') ∧
    h !! r = None ∧
    h' !! r = Some (PySet (obj_keys (PySet {[1; 2; 3]}))) ∧
    (∀ l o, h !! l = Some o → h' !! l = Some o).
Proof.
  intros h. split; [reflexivity|]. split; [reflexivity|].
  apply (union_of_parts_spec h 1%positive 2%positive
           (PySet {[1; 2; 3]}) (PySet {[2; 3; 4]})); reflexivity.
Defined.

(** ** Errors of [OidSet_discard] *)

(** X8: [OidSet_discard] lets pass only the [KeyError] of a missing
    element.  Given a map instead of a set it raises, [AttributeError]
    with the C implementation of BTrees and [TypeError] without, and the
    store is left as it was: no key of the map is removed. *)
Theorem OidSet_discard_of_map_raises p h s o v :
  h !! s = Some o → is_mapping o = true →
  OidSet_discard p s v h
  = (Raise (if c_btrees p then AttributeError else TypeError), h).
Proof.
  intros Hs Ho. unfold OidSet_discard.
  destruct (c_btrees p).
  - unfold Native.OidSet_discard, try_except, py_remove, bind, deref.
    rewrite Hs. by destruct o.
  - unfold Fallback.OidSet_discard, set_discard, deref_set, bind, deref.
    rewrite Hs. by destruct o.
Qed.

Lemma OidSet_discard_of_map_raises_witness :
  let h : heap := {[ 1%positive := LLBTree [(1, 50); (5, 100)] ]} in
  h !! 1%positive = Some (LLBTree [(1, 50); (5, 100)]) ∧
  is_mapping (LLBTree [(1, 50); (5, 100)]) = true ∧
  OidSet_discard cpython3 1%positive 5 h
  = (Raise (if c_btrees cpython3 then AttributeError else TypeError), h).
Proof.
  intros h. split; [reflexivity|]. split; [reflexivity|].
  apply (OidSet_discard_of_map_raises cpython3 h 1%positive
           (LLBTree [(1, 50); (5, 100)]) 5); reflexivity.
Defined.

(** ** Maps of the two backings hold the same content *)

Lemma dict_lookup_bt_insert k' k v b :
  dict_lookup k' (bt_insert k v b)
  = if decide (k' = k) then Some v else dict_lookup k' b.
Proof.
  induction b as [|[k1 v1] b IH]; simpl.
  - by repeat case_decide.
  - destruct (Z.ltb_spec k k1); simpl.
    { by repeat case_decide. }
    destruct (Z.eqb_spec k k1); simpl.
    { subst. by repeat case_decide. }
    rewrite IH. repeat case_decide; subst; done.
Qed.

Lemma dict_lookup_del k' k d :
  dict_lookup k' (dict_del k d)
  = if decide (k' = k) then None else dict_lookup k' d.
Proof.
  unfold dict_del.
  pose proof (dict_lookup_filter (λ x, x ≠ k) k' d) as Heq.
  cbv beta in Heq. rewrite Heq. by repeat case_decide.
Qed.

Lemma apply_ops_dict_lookup p m ops : ∀ d h,
  h !! m = Some (PyDict d) →
  ∃ d', apply_ops p m ops h = (Ok tt, <[m := PyDict d']> h) ∧
        ∀ k, dict_lookup k d' = foldl (value_step k) (dict_lookup k d) ops.
Proof.
  induction ops as [|op ops IH]; intros d h Hm; simpl.
  - exists d. by rewrite insert_id.
  - unfold bind. rewrite (apply_op_dict_run p m op d h Hm).
    set (d1 := match op with
               | SetItem k v => dict_set p k v d
               | DelItem k => dict_del k d
               end).
    destruct (IH d1 (<[m := PyDict d1]> h)) as (d' & Hrun & Hlk);
      [apply lookup_insert_eq|].
    exists d'. rewrite Hrun, insert_insert_eq. split; [done|].
    intros k. rewrite Hlk. f_equal. unfold d1.
    destruct op as [k' v|k']; simpl;
      [apply dict_lookup_set | apply dict_lookup_del].
Qed.

Lemma apply_ops_btree_lookup p m ops : ∀ b h,
  ops_fit ops = true →
  h !! m = Some (LLBTree b) →
  ∃ b', apply_ops p m ops h = (Ok tt, <[m := LLBTree b']> h) ∧
        ∀ k, dict_lookup k b' = foldl (value_step k) (dict_lookup k b) ops.
Proof.
  induction ops as [|op ops IH]; intros b h Hfit Hm; simpl.
  - exists b. by rewrite insert_id.
  - apply ops_fit_cons in Hfit as [Hop Hfit].
    unfold bind. rewrite (apply_op_btree_run p m op b h Hm Hop).
    set (b1 := match op with
               | SetItem k v => bt_insert k v b
               | DelItem k => dict_del k b
               end).
    destruct (IH b1 (<[m := LLBTree b1]> h)) as (b' & Hrun & Hlk);
      [done | apply lookup_insert_eq|].
    exists b'. rewrite Hrun, insert_insert_eq. split; [done|].
    intros k. rewrite Hlk. f_equal. unfold b1.
    destruct op as [k' v|k']; simpl;
      [apply dict_lookup_bt_insert | apply dict_lookup_del].
Qed.

(** X9: reading a key of a new map after a sequence of assignments and
    guarded deletions gives the value last assigned to the key, and
    [KeyError] when the key was never assigned or was deleted since.
    The outcome is the same on the BTree and on the dict backing as long
    as the keys and values are signed 64-bit integers, which is what the
    BTree takes; the dict takes any integer. *)
Theorem lookup_after_spec p h ops k :
  (c_btrees p = true → ops_fit ops = true ∧ family64_fits k = true) →
  (lookup_after p ops k h).1
  = match final_value ops k with
    | Some v => Ok v
    | None => Raise KeyError
    end.
Proof.
  intros Hfit.
  unfold lookup_after, OID_TID_MAP_TYPE, bind, final_value.
  set (m := fresh (dom h)).
  destruct (c_btrees p).
  - destruct Hfit as [Hfit _]; [done|].
    unfold Native.OID_TID_MAP_TYPE, BTree_new, alloc. fold m.
    destruct (apply_ops_btree_lookup p m ops [] (<[m := LLBTree []]> h))
      as (b' & Hrun & Hlk); [done | apply lookup_insert_eq|].
    rewrite Hrun. unfold py_getitem, bind, deref.
    rewrite lookup_insert_eq, Hlk. simpl.
    by destruct (foldl (value_step k) None ops).
  - unfold Fallback.OID_TID_MAP_TYPE, dict_new, alloc. fold m.
    destruct (apply_ops_dict_lookup p m ops [] (<[m := PyDict []]> h))
      as (d' & Hrun & Hlk); [apply lookup_insert_eq|].
    rewrite Hrun. unfold py_getitem, bind, deref.
    rewrite lookup_insert_eq, Hlk. simpl.
    by destruct (foldl (value_step k) None ops).
Qed.

Lemma lookup_after_spec_witness :
  let ops := [SetItem 5 100; SetItem 1 50; DelItem 5; SetItem 1 60] in
  (c_btrees cpython3 = true → ops_fit ops = true ∧ family64_fits 1 = true) ∧
  (lookup_after cpython3 ops 1 ∅).1
  = match final_value ops 1 with
    | Some v => Ok v
    | None => Raise KeyError
    end.
Proof.
  intros ops.
  assert (c_btrees cpython3 = true →
          ops_fit ops = true ∧ family64_fits 1 = true) as Hfit
    by (intros _; split; reflexivity).
  split; [exact Hfit|].
  apply (lookup_after_spec cpython3 ∅ ops 1 Hfit).
Defined.

(** ** Items of a map, version flags *)

(** X10: on a map of either backing and on every version of Python,
    [iteroiditems] returns the items of the map, in iteration order, and
    raises nothing: it calls [iteritems] only where the method exists,
    and [items] elsewhere. *)
Theorem iteroiditems_spec v h d o :
  h !! d = Some o → is_mapping o = true →
  iteroiditems v d h = (Ok (obj_items o), h) ∧
  (obj_items o).*1 = obj_iter o.
Proof.
  intros Hd Ho. split; [|by destruct o].
  unfold iteroiditems, hasattr_iteritems, py_iteritems, py_items, bind,
    deref, ret, raise.
  rewrite Hd. destruct o; simpl; rewrite ?Hd; try done;
    destruct (major v <? 3) eqn:Hv; simpl; rewrite ?Hd, ?Hv; done.
Qed.

Lemma iteroiditems_spec_witness :
  let h : heap := {[ 1%positive := PyDict [(5, 100); (1, 50)] ]} in
  let o := PyDict [(5, 100); (1, 50)] in
  let v := {| major := 3; minor := 7 |} in
  h !! 1%positive = Some o ∧ is_mapping o = true ∧
  iteroiditems v 1%positive h = (Ok (obj_items o), h) ∧
  (obj_items o).*1 = obj_iter o.
Proof.
  intros h o v. split; [reflexivity|]. split; [reflexivity|].
  apply (iteroiditems_spec v h 1%positive o); reflexivity.
Defined.

(** X11: [PY36] holds exactly when the major version is above 3, or is
    3 with a minor version of 6 or more.  [PY2], the negation of [PY3],
    therefore holds together with [PY36] exactly on a major version
    above 3; on major version 3, [PY36] says that the minor version is
    6 or more. *)
Theorem version_flags v :
  (PY36 v = true ↔ 3 < major v ∨ (major v = 3 ∧ 6 ≤ minor v)) ∧
  (PY36 v = true ∧ PY2 v = true ↔ 3 < major v) ∧
  (PY3 v = true → (PY36 v = true ↔ 6 ≤ minor v)).
Proof.
  unfold PY36, PY2, PY3, tuple_ge. simpl.
  destruct (Z.ltb_spec (major v) 3), (Z.eqb_spec (major v) 3),
    (Z.ltb_spec (minor v) 6), (Z.eqb_spec (minor v) 6); simpl;
    split_and!; try split; intros; try lia; try done;
    intuition (try lia; try done).
Qed.

(** ** Function wrappers on Python 2 *)

Lemma fbind_run {A B} (m : F A) (k : A → F B) s a s' :
  m s = (Ok a, s') → fbind m k s = k a s'.
Proof. intros Hm. unfold fbind. by rewrite Hm. Qed.

Lemma getattr_module s o f :
  s !! o = Some f → py_getattr o "__module__" s = (Ok (fn_module f), s).
Proof. intros Ho. unfold py_getattr, fbind, fderef. by rewrite Ho. Qed.

Lemma getattr_name s o f :
  s !! o = Some f → py_getattr o "__name__" s = (Ok (VStr (fn_name f)), s).
Proof. intros Ho. unfold py_getattr, fbind, fderef. by rewrite Ho. Qed.

Lemma getattr_doc s o f :
  s !! o = Some f → py_getattr o "__doc__" s = (Ok (fn_doc f), s).
Proof. intros Ho. unfold py_getattr, fbind, fderef. by rewrite Ho. Qed.

Lemma setattr_module s o f v :
  s !! o = Some f →
  py_setattr o "__module__" v s
  = (Ok tt, <[o := {| fn_module := v; fn_name := fn_name f;
                      fn_doc := fn_doc f; fn_dict := fn_dict f |}]> s).
Proof. intros Ho. unfold py_setattr, fbind, fderef. by rewrite Ho. Qed.

Lemma setattr_name s o f n :
  s !! o = Some f →
  py_setattr o "__name__" (VStr n) s
  = (Ok tt, <[o := {| fn_module := fn_module f; fn_name := n;
                      fn_doc := fn_doc f; fn_dict := fn_dict f |}]> s).
Proof. intros Ho. unfold py_setattr, fbind, fderef. by rewrite Ho. Qed.

Lemma setattr_doc s o f v :
  s !! o = Some f →
  py_setattr o "__doc__" v s
  = (Ok tt, <[o := {| fn_module := fn_module f; fn_name := fn_name f;
                      fn_doc := v; fn_dict := fn_dict f |}]> s).
Proof. intros Ho. unfold py_setattr, fbind, fderef. by rewrite Ho. Qed.

Lemma setattr_wrapped s o f v :
  s !! o = Some f →
  py_setattr o "__wrapped__" v s
  = (Ok tt, <[o := {| fn_module := fn_module f; fn_name := fn_name f;
                      fn_doc := fn_doc f;
                      fn_dict := <["__wrapped__" := v]> (fn_dict f) |}]> s).
Proof. intros Ho. unfold py_setattr, fbind, fderef. by rewrite Ho. Qed.

Lemma dict_update_run s wrapper wrapped fw f :
  s !! wrapped = Some fw → s !! wrapper = Some f →
  dict_update wrapper wrapped s
  = (Ok tt, <[wrapper := {| fn_module := fn_module f; fn_name := fn_name f;
                            fn_doc := fn_doc f;
                            fn_dict := fn_dict fw ∪ fn_dict f |}]> s).
Proof.
  intros Hw Ho. unfold dict_update, fbind, fderef. by rewrite Hw, Ho.
Qed.

(** One round of the loop over [assigned], for each of the three names:
    the attribute of [wrapper] becomes that of [wrapped]. *)
Lemma assign_module_run s wrapper wrapped f r :
  s !! wrapped = Some f → s !! wrapper = Some r →
  (do! v := py_getattr wrapped "__module__" in
   py_setattr wrapper "__module__" v) s
  = (Ok tt, <[wrapper := {| fn_module := fn_module f; fn_name := fn_name r;
                            fn_doc := fn_doc r; fn_dict := fn_dict r |}]> s).
Proof.
  intros Hf Hr. rewrite (fbind_run _ _ _ _ _ (getattr_module _ _ _ Hf)).
  by apply setattr_module.
Qed.

Lemma assign_name_run s wrapper wrapped f r :
  s !! wrapped = Some f → s !! wrapper = Some r →
  (do! v := py_getattr wrapped "__name__" in
   py_setattr wrapper "__name__" v) s
  = (Ok tt, <[wrapper := {| fn_module := fn_module r; fn_name := fn_name f;
                            fn_doc := fn_doc r; fn_dict := fn_dict r |}]> s).
Proof.
  intros Hf Hr. rewrite (fbind_run _ _ _ _ _ (getattr_name _ _ _ Hf)).
  by apply setattr_name.
Qed.

Lemma assign_doc_run s wrapper wrapped f r :
  s !! wrapped = Some f → s !! wrapper = Some r →
  (do! v := py_getattr wrapped "__doc__" in
   py_setattr wrapper "__doc__" v) s
  = (Ok tt, <[wrapper := {| fn_module := fn_module r; fn_name := fn_name r;
                            fn_doc := fn_doc f; fn_dict := fn_dict r |}]> s).
Proof.
  intros Hf Hr. rewrite (fbind_run _ _ _ _ _ (getattr_doc _ _ _ Hf)).
  by apply setattr_doc.
Qed.

Lemma assign_attrs_cons wrapper wrapped attr assigned s :
  assign_attrs wrapper wrapped (attr :: assigned) s
  = match (do! v := py_getattr wrapped attr in
           py_setattr wrapper attr v) s with
    | (Ok _, s') => assign_attrs wrapper wrapped assigned s'
    | (Raise e, s') => (Raise e, s')
    end.
Proof.
  cbn [assign_attrs]. unfold fbind.
  destruct (py_getattr wrapped attr s) as [[v|e] s']; [|done].
  by destruct (py_setattr wrapper attr v s') as [[[]|e] s''].
Qed.

(** The record of [wrapped] as the store holds it while [wrapper] is
    being updated: the updated record itself when the two are the same
    function. *)
Lemma lookup_wrapped_after (s : fstore) (wrapper wrapped : loc)
    (f r' : pyfunc) :
  s !! wrapped = Some f →
  <[wrapper := r']> s !! wrapped
  = Some (if decide (wrapper = wrapped) then r' else f).
Proof.
  intros Hf. case_decide as Heq.
  - subst. apply lookup_insert_eq.
  - by rewrite lookup_insert_ne.
Qed.

Lemma assign_attrs_run s wrapper wrapped f r :
  s !! wrapped = Some f → s !! wrapper = Some r →
  assign_attrs wrapper wrapped WRAPPER_ASSIGNMENTS s
  = (Ok tt,
     <[wrapper := {| fn_module := fn_module f; fn_name := fn_name f;
                     fn_doc := fn_doc f; fn_dict := fn_dict r |}]> s).
Proof.
  intros Hf Hr.
  assert (wrapper = wrapped → r = f) as Halias by (intros ->; congruence).
  unfold WRAPPER_ASSIGNMENTS.
  rewrite assign_attrs_cons, (assign_module_run _ _ _ _ _ Hf Hr).
  rewrite assign_attrs_cons.
  erewrite (assign_name_run _ wrapper wrapped _ _
              (lookup_wrapped_after _ _ _ _ _ Hf) (lookup_insert_eq _ _ _)).
  rewrite insert_insert_eq, assign_attrs_cons.
  erewrite (assign_doc_run _ wrapper wrapped _ _
              (lookup_wrapped_after _ _ _ _ _ Hf) (lookup_insert_eq _ _ _)).
  rewrite insert_insert_eq. cbn [assign_attrs]. unfold fret.
  do 2 f_equal.
  destruct (decide (wrapper = wrapped)) as [Heq|Hne]; simpl; [|done].
  by rewrite (Halias Heq).
Qed.

Lemma functools_update_wrapper_run s wrapper wrapped f r :
  s !! wrapped = Some f → s !! wrapper = Some r →
  functools_update_wrapper wrapper wrapped s
  = (Ok wrapper,
     <[wrapper := {| fn_module := fn_module f; fn_name := fn_name f;
                     fn_doc := fn_doc f;
                     fn_dict := fn_dict f ∪ fn_dict r |}]> s).
Proof.
  intros Hf Hr.
  assert (wrapper = wrapped → r = f) as Halias by (intros ->; congruence).
  unfold functools_update_wrapper.
  rewrite (fbind_run _ _ _ _ _ (assign_attrs_run _ _ _ _ _ Hf Hr)).
  erewrite (fbind_run _ _ _ _ _
              (dict_update_run _ wrapper wrapped _ _
                 (lookup_wrapped_after _ _ _ _ _ Hf)
                 (lookup_insert_eq _ _ _))).
  rewrite insert_insert_eq. unfold fret. do 2 f_equal.
  destruct (decide (wrapper = wrapped)) as [Heq|Hne]; simpl; [|done].
  by rewrite (Halias Heq).
Qed.

Lemma wraps_call_run s func replacement f r :
  s !! func = Some f → s !! replacement = Some r →
  wraps_call (wraps_init func) replacement s
  = (Ok replacement,
     <[replacement :=
         {| fn_module := fn_module f; fn_name := fn_name f;
            fn_doc := fn_doc f;
            fn_dict := <["__wrapped__" := VObj func]>
                         (fn_dict f ∪ fn_dict r) |}]> s).
Proof.
  intros Hf Hr. unfold wraps_call, wraps_init, functools_wraps. simpl.
  rewrite (fbind_run _ _ _ _ _
             (functools_update_wrapper_run _ _ _ _ _ Hf Hr)).
  erewrite (fbind_run _ _ _ _ _
              (setattr_wrapped _ _ _ _ (lookup_insert_eq _ _ _))).
  by rewrite insert_insert_eq.
Qed.

Lemma update_wrapper_run s wrapper wrapped f r :
  s !! wrapped = Some f → s !! wrapper = Some r →
  update_wrapper wrapper wrapped s
  = (Ok wrapped,
     <[wrapper :=
         {| fn_module := fn_module f; fn_name := fn_name f;
            fn_doc := fn_doc f;
            fn_dict := <["__wrapped__" := VObj wrapped]>
                         (fn_dict f ∪ fn_dict r) |}]> s).
Proof.
  intros Hf Hr. unfold update_wrapper.
  rewrite (fbind_run _ _ _ _ _
             (functools_update_wrapper_run _ _ _ _ _ Hf Hr)).
  erewrite (fbind_run _ _ _ _ _
              (setattr_wrapped _ _ _ _ (lookup_insert_eq _ _ _))).
  by rewrite insert_insert_eq.
Qed.

(** X12: on Python 2, [wraps(func)(replacement)] returns [replacement]
    itself, updated in place: it has the module, name and doc of [func],
    its [__dict__] is extended by that of [func], and its [__wrapped__]
    refers to [func].  No other object changes. *)
Theorem wraps_call_spec s func replacement f r :
  s !! func = Some f → s !! replacement = Some r →
  ∃ r',
    wraps_call (wraps_init func) replacement s
    = (Ok replacement, <[replacement := r']> s) ∧
    fn_module r' = fn_module f ∧ fn_name r' = fn_name f ∧
    fn_doc r' = fn_doc f ∧
    fn_dict r' !! "__wrapped__" = Some (VObj func) ∧
    ∀ name, name ≠ "__wrapped__" →
      fn_dict r' !! name
      = match fn_dict f !! name with
        | Some v => Some v
        | None => fn_dict r !! name
        end.
Proof.
  intros Hf Hr. eexists. split; [by apply wraps_call_run|]. simpl.
  split_and!; [done.. | apply lookup_insert_eq |].
  intros name Hname. rewrite lookup_insert_ne by done.
  rewrite lookup_union. by destruct (fn_dict f !! name), (fn_dict r !! name).
Qed.

Lemma wraps_call_spec_witness :
  let f := {| fn_module := VStr "relstorage.cache"; fn_name := "load";
              fn_doc := VStr "Load an object."; fn_dict := ∅ |} in
  let r := {| fn_module := VStr "relstorage._compat"; fn_name := "wrapper";
              fn_doc := VNone; fn_dict := {[ "rate" := VStr "0.1" ]} |} in
  let s : fstore := {[ 1%positive := f; 2%positive := r ]} in
  s !! 1%positive = Some f ∧ s !! 2%positive = Some r ∧
  ∃ r',
    wraps_call (wraps_init 1%positive) 2%positive s
    = (Ok 2%positive, <[2%positive := r']> s) ∧
    fn_module r' = fn_module f ∧ fn_name r' = fn_name f ∧
    fn_doc r' = fn_doc f ∧
    fn_dict r' !! "__wrapped__" = Some (VObj 1%positive) ∧
    ∀ name, name ≠ "__wrapped__" →
      fn_dict r' !! name
      = match fn_dict f !! name with
        | Some v => Some v
        | None => fn_dict r !! name
        end.
Proof.
  intros f r s. split; [reflexivity|]. split; [reflexivity|].
  apply (wraps_call_spec s 1%positive 2%positive f r); reflexivity.
Defined.

(** X13: on Python 2, [update_wrapper(wrapper, wrapped)] updates
    [wrapper] exactly as [wraps(wrapped)(wrapper)] does, [__wrapped__]
    included, but it returns [wrapped], the function that was wrapped,
    where [wraps(wrapped)(wrapper)] returns [wrapper]. *)
Theorem update_wrapper_returns_wrapped s wrapper wrapped f r :
  s !! wrapped = Some f → s !! wrapper = Some r →
  ∃ s',
    update_wrapper wrapper wrapped s = (Ok wrapped, s') ∧
    wraps_call (wraps_init wrapped) wrapper s = (Ok wrapper, s') ∧
    py_getattr wrapper "__wrapped__" s' = (Ok (VObj wrapped), s').
Proof.
  intros Hf Hr. eexists. split; [by apply update_wrapper_run|].
  split; [by apply wraps_call_run|].
  unfold py_getattr, fbind, fderef. rewrite lookup_insert_eq. simpl.
  by rewrite lookup_insert_eq.
Qed.

Lemma update_wrapper_returns_wrapped_witness :
  let f := {| fn_module := VStr "relstorage.cache"; fn_name := "load";
              fn_doc := VStr "Load an object."; fn_dict := ∅ |} in
  let r := {| fn_module := VStr "relstorage._compat"; fn_name := "wrapper";
              fn_doc := VNone; fn_dict := ∅ |} in
  let s : fstore := {[ 1%positive := f; 2%positive := r ]} in
  s !! 1%positive = Some f ∧ s !! 2%positive = Some r ∧
  ∃ s',
    update_wrapper 2%positive 1%positive s = (Ok 1%positive, s') ∧
    wraps_call (wraps_init 1%positive) 2%positive s = (Ok 2%positive, s') ∧
    py_getattr 2%positive "__wrapped__" s' = (Ok (VObj 1%positive), s').
Proof.
  intros f r s. split; [reflexivity|]. split; [reflexivity|].
  apply (update_wrapper_returns_wrapped s 2%positive 1%positive f r);
    reflexivity.
Defined.


(** ** Greatest key after updates; difference of a union *)

(** X14: the greatest key asked of a new map after a sequence of
    assignments and guarded deletions is the greatest of the keys the
    updates have left, and 0 when they have left none (as after deleting
    every key).  The outcome is the same on the BTree and on the dict
    backing as long as the updates are made of signed 64-bit integers,
    which a BTree is sure to take; the dict takes any integer. *)
Theorem max_key_after_spec p h ops :
  (c_btrees p = true → ops_fit ops = true) →
  ∃ z,
    (max_key_after p ops h).1 = Ok z ∧
    (insertion_order ops = [] → z = 0) ∧
    (insertion_order ops ≠ [] →
     z ∈ insertion_order ops ∧ ∀ k, k ∈ insertion_order ops → k ≤ z).
Proof.
  intros Hfit. unfold max_key_after, OID_OBJECT_MAP_TYPE, bind.
  set (m := fresh (dom h)).
  assert (∀ o h', h' !! m = Some o → is_map p o = true →
    (∀ k, k ∈ obj_iter o ↔ k ∈ insertion_order ops) →
    ∃ z, (OidObjectMap_max_key p m h').1 = Ok z ∧
         (insertion_order ops = [] → z = 0) ∧
         (insertion_order ops ≠ [] →
          z ∈ insertion_order ops ∧ ∀ k, k ∈ insertion_order ops → k ≤ z))
    as Hmax.
  { intros o h' Hm Ho Hkeys.
    destruct (OidObjectMap_max_key_run p h' m o Hm Ho)
      as (z & Hrun & Hz0 & Hzmax).
    exists z. rewrite Hrun. split; [done|]. split.
    - intros Hnil. apply Hz0.
      destruct (obj_iter o) as [|k ks]; [done|].
      assert (k ∈ insertion_order ops) as Hk
        by (apply Hkeys, elem_of_cons; by left).
      rewrite Hnil in Hk. by apply elem_of_nil in Hk.
    - intros Hne. destruct Hzmax as [Hin Hle].
      { intros Hnil. destruct (insertion_order ops) as [|k ks]; [done|].
        assert (k ∈ obj_iter o) as Hk
          by (apply Hkeys, elem_of_cons; by left).
        rewrite Hnil in Hk. by apply elem_of_nil in Hk. }
      split; [by apply Hkeys|]. intros k Hk. by apply Hle, Hkeys. }
  destruct (c_btrees p) eqn:Hp.
  - unfold Native.OID_OBJECT_MAP_TYPE, BTree_new, alloc. fold m.
    destruct (apply_ops_btree p m ops [] [] (<[m := LLBTree []]> h))
      as (b' & Hrun & Hasc & Hks);
      [by apply Hfit | apply lookup_insert_eq | done..|].
    rewrite Hrun, insert_insert_eq.
    apply (Hmax (LLBTree b')); [apply lookup_insert_eq | | done].
    unfold is_map. by rewrite Hp.
  - unfold Fallback.OID_OBJECT_MAP_TYPE, dict_new, alloc. fold m.
    destruct (apply_ops_dict_keys p m ops [] [] (<[m := PyDict []]> h))
      as (d' & Hrun & Hnd & Hks);
      [apply lookup_insert_eq | apply NoDup_nil_2 | done |].
    rewrite Hrun, insert_insert_eq.
    apply (Hmax (PyDict d')); [apply lookup_insert_eq | | done].
    unfold is_map. by rewrite Hp.
Qed.

Lemma max_key_after_spec_witness :
  let ops := [SetItem 5 100; SetItem 9 200; SetItem 1 50; DelItem 9] in
  (c_btrees cpython3 = true → ops_fit ops = true) ∧
  ∃ z,
    (max_key_after cpython3 ops ∅).1 = Ok z ∧
    (insertion_order ops = [] → z = 0) ∧
    (insertion_order ops ≠ [] →
     z ∈ insertion_order ops ∧ ∀ k, k ∈ insertion_order ops → k ≤ z).
Proof.
  intros ops. split; [reflexivity|].
  apply (max_key_after_spec cpython3 ∅ ops). reflexivity.
Defined.

(** X15: on sets of either backing, taking from [a] the union of [b]
    and [c] (by [OidTMap_multiunion]) leaves the same elements as taking
    away [b] and then [c]: those of [a] that are in neither. *)
Theorem difference_of_union_spec p h a b c oa ob oc :
  h !! a = Some oa → h !! b = Some ob → h !! c = Some oc →
  is_set p oa = true → is_set p ob = true → is_set p oc = true →
  returned_keys (difference_of_union p a b c) h
  = Some (obj_keys oa ∖ (obj_keys ob ∪ obj_keys oc)) ∧
  returned_keys (difference_twice p a b c) h
  = returned_keys (difference_of_union p a b c) h.
Proof.
  intros Ha Hb Hc Hoa Hob Hoc.
  assert (returned_keys (difference_of_union p a b c) h
          = Some (obj_keys oa ∖ (obj_keys ob ∪ obj_keys oc))) as Hunion.
  { destruct (OidTMap_multiunion_run p h [b; c])
      as (u & h1 & ou & Hrun & Hfu & Hs1 & Hu & Hou & Hkeys).
    { apply all_sets_cons. split; [by eexists|].
      apply all_sets_cons. split; [by eexists|]. done. }
    destruct (OidSet_difference_run p h1 a u oa ou)
      as (r & h2 & o & Hrun' & Hf & Hs2 & Hr & Ho & Hkeys');
      [heap_lookup | done | done | by unfold is_coll; rewrite Hou, orb_true_r
      |].
    unfold returned_keys, difference_of_union, bind.
    rewrite Hrun, Hrun', Hr. simpl. f_equal.
    rewrite Hkeys', Hkeys, !union_of_cons. unfold keys_at.
    rewrite Hb, Hc. unfold union_of. simpl. set_solver. }
  split; [done|]. rewrite Hunion.
  destruct (OidSet_difference_run p h a b oa ob)
    as (d & h1 & od & Hrun & Hfd & Hs1 & Hd & Hod & Hkeys);
    [done | done | done | by unfold is_coll; rewrite Hob, orb_true_r |].
  destruct (OidSet_difference_run p h1 d c od oc)
    as (r & h2 & o & Hrun' & Hf & Hs2 & Hr & Ho & Hkeys');
    [done | heap_lookup | done | by unfold is_coll; rewrite Hoc, orb_true_r
    |].
  unfold returned_keys, difference_twice, bind.
  rewrite Hrun, Hrun', Hr. simpl. f_equal.
  rewrite Hkeys', Hkeys. set_solver.
Qed.

Lemma difference_of_union_spec_witness :
  let h : heap :=
    {[ 1%positive := LLTreeSet [1; 2; 3; 4];
       2%positive := LLTreeSet [2];
       3%positive := LLTreeSet [3; 7] ]} in
  let oa := LLTreeSet [1; 2; 3; 4] in
  let ob := LLTreeSet [2] in
  let oc := LLTreeSet [3; 7] in
  h !! 1%positive = Some oa ∧ h !! 2%positive = Some ob ∧
  h !! 3%positive = Some oc ∧
  is_set cpython3 oa = true ∧ is_set cpython3 ob = true ∧
  is_set cpython3 oc = true ∧
  returned_keys (difference_of_union cpython3 1%positive 2%positive
                   3%positive) h
  = Some (obj_keys oa ∖ (obj_keys ob ∪ obj_keys oc)) ∧
  returned_keys (difference_twice cpython3 1%positive 2%positive
                   3%positive) h
  = returned_keys (difference_of_union cpython3 1%positive 2%positive
                     3%positive) h.
Proof.
  intros h oa ob oc. do 6 (split; [reflexivity|]).
  apply (difference_of_union_spec cpython3 h 1%positive 2%positive
           3%positive oa ob oc); reflexivity.
Defined.
